(** * OPTALG: the IPOPT adapter [optalg/opt_solver/_ipopt/cipopt.pyx]

    A shallow embedding of the Cython adapter around the IPOPT C interface:
    the context class [IpoptContext] with its methods [__init__],
    [add_option], [create_problem] and [solve], and the five C callbacks
    [eval_f_cb], [eval_grad_f_cb], [eval_g_cb], [eval_jac_g_cb] and
    [eval_h_cb] that the native solver calls back into.

    Conventions of the embedding.
    - C [int] values and Python integers are [Z]; a Python integer assigned
      to a [cdef int] goes through [to_c_int], which raises [OverflowError]
      outside the 32-bit range.
    - A [double] is carried as its 64-bit pattern; the adapter never does
      arithmetic on one, it only moves them.
    - Raw memory is a list of byte buffers; a pointer is [NULL] or the
      address of a buffer.  [memcpy] and a store through a pointer are
      undefined outside the buffer they are given.
    - The caller's five Python functions are fields of the context.  The
      objective function returns a number or raises; the other four are
      taken to return normally, with a value of the shape the call site
      binds it to.  They may read memory and carry a state of their own.
    - A C function declared without an exception value cannot pass on a
      Python exception raised in its body: the exception is written out and
      the function returns 0 ([unraisable]).
    - The IPOPT library (declared in [cipopt.pxd]) is a parameter: the class
      [cipopt] below.
    - Every call into a Python callback and into the native library is
      appended to a trace. *)

From Stdlib Require Import ZArith Lia.
From stdpp Require Import base tactics option list strings.

Local Open Scope Z_scope.

(** ** Raw memory *)

Inductive ptr : Type :=
| NULL
| Addr (a : nat).

#[global] Instance ptr_eq_dec : EqDecision ptr.
Proof. solve_decision. Defined.

(** A [double] as its IEEE-754 binary64 bit pattern; [0] is [0.0]. *)
Definition double : Type := Z.

Definition sizeof_double : Z := 8.
Definition sizeof_int : Z := 4.

(** [size_t] arithmetic, as in [sizeof(double)*c.n]: the [int] operand is
    converted to the unsigned 64-bit type and the product wraps. *)
Definition size_t_mul (a b : Z) : Z := (a * b) mod 2 ^ 64.

(** Little-endian bytes of a [k]-byte machine value. *)
Fixpoint le_bytes (k : nat) (z : Z) : list Z :=
  match k with
  | O => []
  | S k' => Z.land z 255 :: le_bytes k' (Z.shiftr z 8)
  end.

Definition double_bytes (v : list double) : list Z := flat_map (le_bytes 8) v.
Definition int_bytes (v : list Z) : list Z := flat_map (le_bytes 4) v.

Arguments double_bytes : simpl never.
Arguments int_bytes : simpl never.

(** The heap: buffer [a] is the list of bytes at address [a]. *)
Abbreviation heap := (list (list Z)).

(** ** numpy arrays *)

Inductive dtype : Type :=
| NPY_DOUBLE
| NPY_FLOAT
| NPY_INT
| NPY_LONG.

#[global] Instance dtype_eq_dec : EqDecision dtype.
Proof. solve_decision. Defined.

(** An [ndarray] object: what the buffer protocol reports about it, and the
    address of its data. *)
Record ndarray : Type := NdArray {
  nd_dtype : dtype;
  nd_shape : list Z;
  nd_c_contiguous : bool;
  nd_native_order : bool;
  nd_data : ptr
}.

Definition nd_ndim (a : ndarray) : nat := length (nd_shape a).

(** [a.size] *)
Definition nd_size (a : ndarray) : Z := foldr Z.mul 1 (nd_shape a).

(** [ArrayDouble(a, size)]: a one-dimensional view of [size] doubles over the
    raw buffer [a]; nothing is copied. *)
Definition ArrayDouble (a : ptr) (size : Z) : ndarray :=
  {| nd_dtype := NPY_DOUBLE;
     nd_shape := [size];
     nd_c_contiguous := true;
     nd_native_order := true;
     nd_data := a |}.

(** ** Python values and exceptions *)

Inductive pyobj : Type :=
| PyNone
| PyBool (b : bool)
| PyInt (z : Z)
| PyFloat (d : double)
| PyStr (s : string)
| PyArray (a : ndarray).

Inductive pytype : Type :=
| py_int
| py_str
| py_float.

(** [isinstance(val, t)]; [bool] is a subclass of [int]. *)
Definition isinstance (val : pyobj) (t : pytype) : bool :=
  match t, val with
  | py_int, (PyInt _ | PyBool _) => true
  | py_str, PyStr _ => true
  | py_float, PyFloat _ => true
  | _, _ => false
  end.

Definition int_of (val : pyobj) : Z :=
  match val with
  | PyInt z => z
  | PyBool b => if b then 1 else 0
  | _ => 0
  end.

Definition str_of (val : pyobj) : string :=
  match val with
  | PyStr s => s
  | _ => ""
  end.

Definition float_of (val : pyobj) : double :=
  match val with
  | PyFloat d => d
  | _ => 0
  end.

Inductive exn : Type :=
| ValueError (msg : string)
| AssertionError
| OverflowError
| IpoptContextError (value : string).

(** ** The native interface and the trace *)

Inductive IpoptProblem : Type :=
| NullProblem
| Problem (id : nat).

(** The data arguments of [CreateIpoptProblem]; the five callbacks passed
    after them are always the trampolines of this file. *)
Record create_args : Type := CreateArgs {
  ca_n : Z;
  ca_x_L : ptr;
  ca_x_U : ptr;
  ca_m : Z;
  ca_g_L : ptr;
  ca_g_U : ptr;
  ca_nele_jac : Z;
  ca_nele_hess : Z;
  ca_index_style : Z
}.

(** The data arguments of [IpoptSolve]; the last argument, the user data, is
    the context itself. *)
Record solve_args : Type := SolveArgs {
  sa_problem : IpoptProblem;
  sa_x : ptr;
  sa_g : ptr;
  sa_obj_val : ptr;
  sa_mult_g : ptr;
  sa_mult_x_L : ptr;
  sa_mult_x_U : ptr
}.

Inductive event : Type :=
| CallEvalF (x : ndarray)
| CallEvalGradF (x : ndarray)
| CallEvalG (x : ndarray)
| CallEvalJacG (x : option ndarray) (flag : bool)
| CallEvalH (x lam : option ndarray) (obj_factor : option double) (flag : bool)
| NativeCreate (args : create_args)
| NativeAddInt (p : IpoptProblem) (key : string) (val : Z)
| NativeAddStr (p : IpoptProblem) (key : string) (val : string)
| NativeAddNum (p : IpoptProblem) (key : string) (val : double)
| NativeSolve (args : solve_args).

(** The events that are calls into the native library. *)
Definition is_native (e : event) : bool :=
  match e with
  | NativeCreate _ | NativeAddInt _ _ _ | NativeAddStr _ _ _
  | NativeAddNum _ _ _ | NativeSolve _ => true
  | _ => false
  end.

(** What a Jacobian or Hessian callback returns: the pair of index arrays
    when [flag] is true, the array of values when it is false. *)
Definition sparse_ret (flag : bool) : Type :=
  if flag then (list Z * list Z)%type else list double.

Definition sparse_obj (flag : bool) : Type :=
  if flag then (ndarray * ndarray)%type else ndarray.

(** ** The context class *)

(** The caller's functions.  Each is given the arrays it is called with,
    read access to memory, and the state [U] of the caller's program. *)

(** What a call of a Python function comes to: a value, or an exception. *)
Inductive py_return (A : Type) : Type :=
| Returns (a : A)
| Raises (e : exn).

Arguments Returns {A}.
Arguments Raises {A}.

(** [eval_f(x)] returns the objective value, or raises; a result that is not
    a number raises at its conversion to a C [double], and counts as
    raising. *)
Definition objective_fn (U : Type) : Type :=
  ndarray -> heap -> U -> py_return double * U.

(** [eval_grad_f(x)] and [eval_g(x)] return an array of doubles. *)
Definition vector_fn (U : Type) : Type :=
  ndarray -> heap -> U -> list double * U.

(** [eval_jac_g(x, flag)] *)
Definition jacobian_fn (U : Type) : Type :=
  option ndarray -> forall flag : bool, heap -> U -> sparse_ret flag * U.

(** [eval_h(x, lam, obj_factor, flag)] *)
Definition hessian_fn (U : Type) : Type :=
  option ndarray -> option ndarray -> option double ->
  forall flag : bool, heap -> U -> sparse_ret flag * U.

(** [cdef class IpoptContext]: its [cdef] attributes. *)
Record IpoptContext (U : Type) : Type := MkContext {
  ctx_n : Z;
  ctx_m : Z;
  ctx_nnzj : Z;
  ctx_nnzh : Z;
  ctx_l : ndarray;
  ctx_u : ndarray;
  ctx_gl : ndarray;
  ctx_gu : ndarray;
  eval_f : objective_fn U;
  eval_g : vector_fn U;
  eval_grad_f : vector_fn U;
  eval_jac_g : jacobian_fn U;
  eval_h : hessian_fn U;
  ctx_problem : IpoptProblem
}.

Arguments MkContext {U}.
Arguments ctx_n {U}.
Arguments ctx_m {U}.
Arguments ctx_nnzj {U}.
Arguments ctx_nnzh {U}.
Arguments ctx_l {U}.
Arguments ctx_u {U}.
Arguments ctx_gl {U}.
Arguments ctx_gu {U}.
Arguments eval_f {U}.
Arguments eval_g {U}.
Arguments eval_grad_f {U}.
Arguments eval_jac_g {U}.
Arguments eval_h {U}.
Arguments ctx_problem {U}.

(** ** State, results and the monad of the adapter *)

(** [U] is the state of the caller's program, [N] the state of the native
    library. *)
Record world (U N : Type) : Type := World {
  w_heap : heap;
  w_user : U;
  w_native : N;
  w_trace : list event
}.

Arguments World {U N}.
Arguments w_heap {U N}.
Arguments w_user {U N}.
Arguments w_native {U N}.
Arguments w_trace {U N}.

(** A call returns a value, raises a Python exception, or runs into
    undefined behaviour of the C level (an access outside a buffer). *)
Inductive outcome (A : Type) : Type :=
| Ok (a : A)
| Raise (e : exn)
| Undefined.

Arguments Ok {A}.
Arguments Raise {A}.
Arguments Undefined {A}.

Definition M (U N A : Type) : Type := world U N -> outcome A * world U N.

Definition ret {U N A} (a : A) : M U N A := fun w => (Ok a, w).

Definition bind {U N A B} (c : M U N A) (k : A -> M U N B) : M U N B :=
  fun w =>
    match c w with
    | (Ok a, w') => k a w'
    | (Raise e, w') => (Raise e, w')
    | (Undefined, w') => (Undefined, w')
    end.

Definition raise {U N A} (e : exn) : M U N A := fun w => (Raise e, w).

Declare Scope adapter_scope.
Delimit Scope adapter_scope with adapter.

Notation "'do' x <- c ; k" := (bind c (fun x => k))
  (at level 10, x name, c at level 100, k at level 200) : adapter_scope.
Notation "'run' c ; k" := (bind c (fun _ => k))
  (at level 10, c at level 100, k at level 200) : adapter_scope.

Local Open Scope adapter_scope.

Definition log {U N} (e : event) : M U N unit :=
  fun w => (Ok tt, World (w_heap w) (w_user w) (w_native w) (w_trace w ++ [e])).

Definition set_heap {U N} (h : heap) (w : world U N) : world U N :=
  World h (w_user w) (w_native w) (w_trace w).

(** The IPOPT C interface of [cipopt.pxd].  The option setters and the
    constructor act on the state of the library; the iteration driver is
    given the context as user data and may call the trampolines, so it acts
    on the whole world.  The value of an integer option is a C [int]: the
    Python integer is converted in [add_option], before the call. *)
Class cipopt (U N : Type) : Type := {
  CreateIpoptProblem : create_args -> N -> IpoptProblem * N;
  AddIpoptIntOption : IpoptProblem -> string -> Z -> N -> bool * N;
  AddIpoptStrOption : IpoptProblem -> string -> string -> N -> bool * N;
  AddIpoptNumOption : IpoptProblem -> string -> double -> N -> bool * N;
  IpoptSolve : solve_args -> IpoptContext U -> world U N -> Z * world U N
}.

(** ** Primitives of the two runtimes *)

(** The values of a C [int]. *)
Definition fits_c_int (z : Z) : bool := (- 2 ^ 31 <=? z) && (z <? 2 ^ 31).

(** No event of [evs] is a call into the native library. *)
Definition no_native_call (evs : list event) : bool :=
  forallb (fun e => negb (is_native e)) evs.

Section Adapter.

Context {U N : Type} `{!cipopt U N}.

Abbreviation M := (M U N).

(** A Python integer stored into a C [int]. *)
Definition to_c_int (z : Z) : M Z :=
  if fits_c_int z then ret z else raise OverflowError.

(** [assert(b)], with assertions enabled. *)
Definition py_assert (b : bool) : M unit :=
  if b then ret tt else raise AssertionError.

(** A new buffer, at the first address not in use. *)
Definition alloc (bytes : list Z) : M ptr :=
  fun w => (Ok (Addr (length (w_heap w))), set_heap (w_heap w ++ [bytes]) w).

(** [np.zeros(k)]: a new array of [k] doubles, all [0.0]. *)
Definition np_zeros (k : Z) : M ndarray :=
  if k <? 0 then raise (ValueError "negative dimensions are not allowed")
  else
    do p <- alloc (replicate (Z.to_nat (sizeof_double * k)) 0);
    ret (NdArray NPY_DOUBLE [k] true true p).

(** The array object a callback hands back, holding the doubles [v]. *)
Definition new_double_array (v : list double) : M ndarray :=
  do p <- alloc (double_bytes v);
  ret (NdArray NPY_DOUBLE [Z.of_nat (length v)] true true p).

(** The array object a callback hands back, holding the C ints [v]. *)
Definition new_int_array (v : list Z) : M ndarray :=
  do p <- alloc (int_bytes v);
  ret (NdArray NPY_INT [Z.of_nat (length v)] true true p).

(** [cdef np.ndarray[double,mode='c'] v = a]: the buffer of [a] is acquired as
    a C-contiguous, one-dimensional buffer of native doubles, or the
    assignment raises [ValueError] (the text of the message is the
    runtime's).  The length of [a] plays no part. *)
Definition acquire_double_c (a : ndarray) : M ndarray :=
  if negb (nd_c_contiguous a) then
    raise (ValueError "ndarray is not C-contiguous")
  else if negb (Nat.eqb (nd_ndim a) 1) then
    raise (ValueError "Buffer has wrong number of dimensions")
  else if negb (bool_decide (nd_dtype a = NPY_DOUBLE)) then
    raise (ValueError "Buffer dtype mismatch")
  else if negb (nd_native_order a) then
    raise (ValueError "Non-native byte order not supported")
  else ret a.

(** [memcpy(dst, src, count)]: defined when both pointers address distinct
    buffers of at least [count] bytes. *)
Definition memcpy (dst src : ptr) (count : Z) : M unit :=
  fun w =>
    match dst, src with
    | Addr d, Addr s =>
      match w_heap w !! d, w_heap w !! s with
      | Some db, Some sb =>
        if bool_decide (d <> s)
           && (count <=? Z.of_nat (length sb))
           && (count <=? Z.of_nat (length db))
        then
          (Ok tt,
           set_heap (<[d := take (Z.to_nat count) sb ++ drop (Z.to_nat count) db]>
                       (w_heap w)) w)
        else (Undefined, w)
      | _, _ => (Undefined, w)
      end
    | _, _ => (Undefined, w)
    end.

(** [p[0] = v] for a [double* p]. *)
Definition store_double (p : ptr) (v : double) : M unit :=
  fun w =>
    match p with
    | Addr d =>
      match w_heap w !! d with
      | Some db =>
        if sizeof_double <=? Z.of_nat (length db) then
          (Ok tt, set_heap (<[d := le_bytes 8 v ++ drop 8 db]> (w_heap w)) w)
        else (Undefined, w)
      | None => (Undefined, w)
      end
    | NULL => (Undefined, w)
    end.

(** Running the caller's Python function on the current memory and state. *)
Definition py_call {A} (f : heap -> U -> A * U) : M A :=
  fun w =>
    let '(a, u') := f (w_heap w) (w_user w) in
    (Ok a, World (w_heap w) u' (w_native w) (w_trace w)).

(** Running a Python function of the caller that may raise. *)
Definition py_try {A} (f : heap -> U -> py_return A * U) : M A :=
  fun w =>
    let '(r, u') := f (w_heap w) (w_user w) in
    (match r with Returns a => Ok a | Raises e => Raise e end,
     World (w_heap w) u' (w_native w) (w_trace w)).

(** The body of a [cdef] function that returns a [bint] and declares no
    exception value: a Python exception raised in it is written out, not
    passed on, and the function returns 0. *)
Definition unraisable (body : M bool) : M bool :=
  fun w =>
    match body w with
    | (Raise e, w') => (Ok false, w')
    | r => r
    end.

(** [c.eval_f(x)], converted to a C [double]. *)
Definition py_eval_f (c : IpoptContext U) (x : ndarray) : M double :=
  run log (CallEvalF x);
  py_try (eval_f c x).

(** [c.eval_grad_f(x)] *)
Definition py_eval_grad_f (c : IpoptContext U) (x : ndarray) : M ndarray :=
  run log (CallEvalGradF x);
  do v <- py_call (eval_grad_f c x);
  new_double_array v.

(** [c.eval_g(x)] *)
Definition py_eval_g (c : IpoptContext U) (x : ndarray) : M ndarray :=
  run log (CallEvalG x);
  do v <- py_call (eval_g c x);
  new_double_array v.

(** The array objects of a Jacobian or Hessian answer. *)
Definition new_sparse (flag : bool) : sparse_ret flag -> M (sparse_obj flag) :=
  match flag return sparse_ret flag -> M (sparse_obj flag) with
  | true => fun rc =>
      do row <- new_int_array (fst rc);
      do col <- new_int_array (snd rc);
      ret (row, col)
  | false => fun data => new_double_array data
  end.

(** [c.eval_jac_g(x, flag)] *)
Definition py_eval_jac_g (c : IpoptContext U) (x : option ndarray) (flag : bool)
  : M (sparse_obj flag) :=
  run log (CallEvalJacG x flag);
  do r <- py_call (eval_jac_g c x flag);
  new_sparse flag r.

(** [c.eval_h(x, lam, obj_factor, flag)] *)
Definition py_eval_h (c : IpoptContext U) (x lam : option ndarray)
    (obj_factor : option double) (flag : bool) : M (sparse_obj flag) :=
  run log (CallEvalH x lam obj_factor flag);
  do r <- py_call (eval_h c x lam obj_factor flag);
  new_sparse flag r.

(** A call of a native function that acts on the state of the library. *)
Definition native_call {A} (e : event) (f : N -> A * N) : M A :=
  run log e;
  fun w =>
    let '(a, s') := f (w_native w) in
    (Ok a, World (w_heap w) (w_user w) s' (w_trace w)).

(** The call of the native iteration driver. *)
Definition native_solve (args : solve_args) (user_data : IpoptContext U) : M Z :=
  run log (NativeSolve args);
  fun w =>
    let '(status, w') := IpoptSolve args user_data w in
    (Ok status, w').

(** ** The methods of [IpoptContext] *)

Definition set_problem (p : IpoptProblem) (self : IpoptContext U) : IpoptContext U :=
  MkContext (ctx_n self) (ctx_m self) (ctx_nnzj self) (ctx_nnzh self)
            (ctx_l self) (ctx_u self) (ctx_gl self) (ctx_gu self)
            (eval_f self) (eval_g self) (eval_grad_f self)
            (eval_jac_g self) (eval_h self) p.

(** [IpoptContext.create_problem] *)
Definition create_problem (self : IpoptContext U) : M (IpoptContext U) :=
  do nl <- acquire_double_c (ctx_l self);
  do nu <- acquire_double_c (ctx_u self);
  do ngl <- acquire_double_c (ctx_gl self);
  do ngu <- acquire_double_c (ctx_gu self);
  let args :=
    CreateArgs (ctx_n self) (nd_data nl) (nd_data nu)
               (ctx_m self) (nd_data ngl) (nd_data ngu)
               (ctx_nnzj self) (ctx_nnzh self) 0 in
  do p <- native_call (NativeCreate args) (CreateIpoptProblem args);
  ret (set_problem p self).

(** [IpoptContext.__init__] *)
Definition __init__ (n m : Z) (l u gl gu : ndarray)
    (eval_f : objective_fn U) (eval_g eval_grad_f : vector_fn U)
    (eval_jac_g : jacobian_fn U) (eval_h : hessian_fn U)
  : M (IpoptContext U) :=
  do self_n <- to_c_int n;
  do self_m <- to_c_int m;
  let self0 :=
    MkContext self_n self_m 0 0 l u gl gu
              eval_f eval_g eval_grad_f eval_jac_g eval_h NullProblem in
  do J <- py_eval_jac_g self0 None true;
  let '(Jrow, Jcol) := J in
  run py_assert (nd_size Jrow =? nd_size Jcol);
  do self_nnzj <- to_c_int (nd_size Jrow);
  do H <- py_eval_h self0 None None None true;
  let '(Hrow, Hcol) := H in
  run py_assert (nd_size Hrow =? nd_size Hcol);
  do self_nnzh <- to_c_int (nd_size Hrow);
  create_problem
    (MkContext self_n self_m self_nnzj self_nnzh l u gl gu
               eval_f eval_g eval_grad_f eval_jac_g eval_h NullProblem).

(** [IpoptContext.add_option] *)
Definition add_option (self : IpoptContext U) (key : string) (val : pyobj) : M unit :=
  do valid <-
    (if isinstance val py_int then
       do v <- to_c_int (int_of val);
       native_call (NativeAddInt (ctx_problem self) key v)
                   (AddIpoptIntOption (ctx_problem self) key v)
     else if isinstance val py_str then
       native_call (NativeAddStr (ctx_problem self) key (str_of val))
                   (AddIpoptStrOption (ctx_problem self) key (str_of val))
     else if isinstance val py_float then
       native_call (NativeAddNum (ctx_problem self) key (float_of val))
                   (AddIpoptNumOption (ctx_problem self) key (float_of val))
     else raise (ValueError "invalid value"));
  if negb valid then
    raise (IpoptContextError ("option " +:+ key +:+ " could not be set"))
  else ret tt.

(** [IpoptContext.solve]; the dictionary it returns is the list of its
    items. *)
Definition solve (self : IpoptContext U) (x : ndarray) : M (list (string * pyobj)) :=
  let cself := self in
  do nx <- acquire_double_c x;
  do nlam <- np_zeros (ctx_m self);
  do npi <- np_zeros (ctx_n self);
  do nmu <- np_zeros (ctx_n self);
  do status <-
    native_solve (SolveArgs (ctx_problem self) (nd_data nx) NULL NULL
                            (nd_data nlam) (nd_data npi) (nd_data nmu))
                 cself;
  ret [("status", PyInt status);
       ("x", PyArray nx);
       ("lam", PyArray nlam);
       ("pi", PyArray npi);
       ("mu", PyArray nmu)].

(** ** The callbacks registered with the native solver *)

(** [eval_f_cb] *)
Definition eval_f_cb (n : Z) (x : ptr) (new_x : bool) (obj_value : ptr)
    (user_data : IpoptContext U) : M bool :=
  let c := user_data in
  unraisable
    (do v <- py_eval_f c (ArrayDouble x (ctx_n c));
     run store_double obj_value v;
     ret true).

(** [eval_grad_f_cb] *)
Definition eval_grad_f_cb (n : Z) (x : ptr) (new_x : bool) (grad_f : ptr)
    (user_data : IpoptContext U) : M bool :=
  let c := user_data in
  do grad_f_arr <- py_eval_grad_f c (ArrayDouble x (ctx_n c));
  run memcpy grad_f (nd_data grad_f_arr) (size_t_mul sizeof_double (ctx_n c));
  ret true.

(** [eval_g_cb] *)
Definition eval_g_cb (n : Z) (x : ptr) (new_x : bool) (m : Z) (g : ptr)
    (user_data : IpoptContext U) : M bool :=
  let c := user_data in
  do g_arr <- py_eval_g c (ArrayDouble x (ctx_n c));
  run memcpy g (nd_data g_arr) (size_t_mul sizeof_double (ctx_m c));
  ret true.

(** [eval_jac_g_cb] *)
Definition eval_jac_g_cb (n : Z) (x : ptr) (new_x : bool) (m nele_jac : Z)
    (iRow jCol values : ptr) (user_data : IpoptContext U) : M bool :=
  let c := user_data in
  if bool_decide (x = NULL) && bool_decide (iRow <> NULL)
     && bool_decide (jCol <> NULL)
  then
    do J <- py_eval_jac_g c None true;
    let '(Jrow_arr, Jcol_arr) := J in
    if negb (nd_size Jrow_arr =? nele_jac) || negb (nd_size Jcol_arr =? nele_jac)
    then ret false
    else
      run memcpy iRow (nd_data Jrow_arr) (size_t_mul sizeof_int nele_jac);
      run memcpy jCol (nd_data Jcol_arr) (size_t_mul sizeof_int nele_jac);
      ret true
  else
    do Jdata_arr <- py_eval_jac_g c (Some (ArrayDouble x (ctx_n c))) false;
    if negb (nd_size Jdata_arr =? nele_jac)
    then ret false
    else
      run memcpy values (nd_data Jdata_arr) (size_t_mul sizeof_double nele_jac);
      ret true.

(** [eval_h_cb] *)
Definition eval_h_cb (n : Z) (x : ptr) (new_x : bool) (obj_factor : double)
    (m : Z) (lam : ptr) (new_lam : bool) (nele_hess : Z)
    (iRow jCol values : ptr) (user_data : IpoptContext U) : M bool :=
  let c := user_data in
  if bool_decide (x = NULL) && bool_decide (iRow <> NULL)
     && bool_decide (jCol <> NULL)
  then
    do H <- py_eval_h c None None None true;
    let '(Hrow_arr, Hcol_arr) := H in
    if negb (nd_size Hrow_arr =? nele_hess) || negb (nd_size Hcol_arr =? nele_hess)
    then ret false
    else
      run memcpy iRow (nd_data Hrow_arr) (size_t_mul sizeof_int nele_hess);
      run memcpy jCol (nd_data Hcol_arr) (size_t_mul sizeof_int nele_hess);
      ret true
  else
    do Hdata_arr <-
      py_eval_h c (Some (ArrayDouble x (ctx_n c)))
                  (Some (ArrayDouble lam (ctx_m c))) (Some obj_factor) false;
    if negb (nd_size Hdata_arr =? nele_hess)
    then ret false
    else
      run memcpy values (nd_data Hdata_arr) (size_t_mul sizeof_double nele_hess);
      ret true.

End Adapter.

(** The buffers [acquire_double_c] accepts. *)
Definition conforming (a : ndarray) : bool :=
  nd_c_contiguous a && Nat.eqb (nd_ndim a) 1
  && bool_decide (nd_dtype a = NPY_DOUBLE) && nd_native_order a.

(** The item stored under [key] in a dictionary. *)
Fixpoint dict_get (key : string) (d : list (string * pyobj)) : option pyobj :=
  match d with
  | [] => None
  | (k, v) :: d' => if String.eqb k key then Some v else dict_get key d'
  end.

(** ** A small problem to run the adapter on

    Two variables and one constraint.  The state of the caller's program
    counts the evaluations made; the state of the stand-in library counts
    the problems created. *)
Module Demo.

(** [1.0] *)
Definition one : double := 4607182418800017408.

Definition f (x : ndarray) (h : heap) (k : nat) : py_return double * nat :=
  (Returns one, S k).

Definition g (x : ndarray) (h : heap) (k : nat) : list double * nat := ([one], S k).

Definition grad_f (x : ndarray) (h : heap) (k : nat) : list double * nat :=
  ([one; one], S k).

(** A gradient with one entry too many, and one with one entry too few. *)
Definition grad_f_long (x : ndarray) (h : heap) (k : nat) : list double * nat :=
  ([one; one; one], S k).

Definition grad_f_short (x : ndarray) (h : heap) (k : nat) : list double * nat :=
  ([one], S k).

Definition jac_g (x : option ndarray) (flag : bool) (h : heap) (k : nat)
  : sparse_ret flag * nat :=
  match flag return sparse_ret flag * nat with
  | true => (([0; 0], [0; 1]), S k)
  | false => ([one; one], S k)
  end.

(** A Jacobian whose row and column arrays disagree in length. *)
Definition jac_g_ragged (x : option ndarray) (flag : bool) (h : heap) (k : nat)
  : sparse_ret flag * nat :=
  match flag return sparse_ret flag * nat with
  | true => (([0; 0], [0]), S k)
  | false => ([one; one], S k)
  end.

Definition hess (x lam : option ndarray) (obj_factor : option double)
    (flag : bool) (h : heap) (k : nat) : sparse_ret flag * nat :=
  match flag return sparse_ret flag * nat with
  | true => (([0], [0]), S k)
  | false => ([one], S k)
  end.

(** A stand-in for the library: it hands out handles in order, knows three
    options, and its driver writes [1.0] into the first entry of the point
    it is given. *)
#[global] Instance lib : cipopt nat nat := {
  CreateIpoptProblem args s :=
    (if (1 <=? ca_n args) && (0 <=? ca_m args) then Problem s else NullProblem,
     S s);
  AddIpoptIntOption p key v s := (String.eqb key "max_iter" && (0 <=? v), s);
  AddIpoptStrOption p key v s := (String.eqb key "linear_solver", s);
  AddIpoptNumOption p key v s := (String.eqb key "tol" && (0 <? v), s);
  IpoptSolve args c w :=
    match store_double (sa_x args) one w with
    | (Ok _, w') => (0, w')
    | (_, w') => (-1, w')
    end
}.

Definition zeros (k : nat) : list Z := replicate k 0.

(** Memory of the caller: the four bound arrays (addresses 0 to 3), a
    starting point of two doubles (4), an output buffer of two doubles (5),
    a slot for one double (6), a lower-bound array of one double only (7),
    a starting point of three doubles (8), and two buffers for two C ints
    each (9, 10). *)
Definition memory : heap :=
  [zeros 16; zeros 16; zeros 8; zeros 8; zeros 16; zeros 16; zeros 8; zeros 8;
   zeros 24; zeros 8; zeros 8].

Definition w0 : world nat nat := World memory 0%nat 0%nat [].

Definition vec (k : Z) (a : nat) : ndarray := NdArray NPY_DOUBLE [k] true true (Addr a).

Definition l : ndarray := vec 2 0.
Definition u : ndarray := vec 2 1.
Definition gl : ndarray := vec 1 2.
Definition gu : ndarray := vec 1 3.
Definition x0 : ndarray := vec 2 4.
Definition l_short : ndarray := vec 1 7.
Definition x0_long : ndarray := vec 3 8.

(** The same lower bounds held as single-precision floats. *)
Definition l_float : ndarray := NdArray NPY_FLOAT [2] true true (Addr 0).

(** The context [__init__] builds for the problem. *)
Definition ctx : IpoptContext nat :=
  MkContext 2 1 2 1 l u gl gu f g grad_f jac_g hess (Problem 0).

Definition ctx_grad_long : IpoptContext nat :=
  MkContext 2 1 2 1 l u gl gu f g grad_f_long jac_g hess (Problem 0).

Definition ctx_grad_short : IpoptContext nat :=
  MkContext 2 1 2 1 l u gl gu f g grad_f_short jac_g hess (Problem 0).

End Demo.

(** More callbacks for the small problem: a constraint function that
    returns no entry, a Hessian whose row and column arrays disagree in
    length, and an objective function that raises. *)
Module DemoMore.

Definition f_raises (x : ndarray) (h : heap) (k : nat) : py_return double * nat :=
  (Raises (ValueError "objective undefined at this point"), S k).

Definition ctx_f_raises : IpoptContext nat :=
  MkContext 2 1 2 1 Demo.l Demo.u Demo.gl Demo.gu f_raises Demo.g Demo.grad_f
            Demo.jac_g Demo.hess (Problem 0).

Definition g_empty (x : ndarray) (h : heap) (k : nat) : list double * nat :=
  ([], S k).

Definition hess_ragged (x lam : option ndarray) (obj_factor : option double)
    (flag : bool) (h : heap) (k : nat) : sparse_ret flag * nat :=
  match flag return sparse_ret flag * nat with
  | true => (([0; 1], [0]), S k)
  | false => ([Demo.one], S k)
  end.

Definition ctx_g_empty : IpoptContext nat :=
  MkContext 2 1 2 1 Demo.l Demo.u Demo.gl Demo.gu Demo.f g_empty Demo.grad_f
            Demo.jac_g Demo.hess (Problem 0).

(** Lower bounds that are not contiguous in memory. *)
Definition l_strided : ndarray := NdArray NPY_DOUBLE [2] false true (Addr 0).

(** A context with a negative number of constraints. *)
Definition ctx_negative_m : IpoptContext nat :=
  MkContext 2 (-1) 2 1 Demo.l Demo.u Demo.gl Demo.gu Demo.f Demo.g Demo.grad_f
            Demo.jac_g Demo.hess NullProblem.

End DemoMore.

(** * Properties *)

(** Unfolds the primitives, down to functions on the world. *)
Ltac unfold_adapter :=
  unfold py_eval_f, py_eval_grad_f, py_eval_g, py_eval_jac_g, py_eval_h,
    new_sparse, new_double_array, new_int_array, alloc, py_call, py_try,
    native_call,
    native_solve, py_assert, to_c_int, log, bind, ret, raise, set_heap in *.

Section Properties.

Context {U N : Type} `{!cipopt U N}.

Abbreviation M := (M U N).

(** ** The primitives *)

Lemma bind_Ok {A B} (c : M A) (k : A -> M B) w a w' :
  c w = (Ok a, w') -> bind c k w = k a w'.
Proof. intros E. unfold bind. now rewrite E. Qed.

Lemma bind_Raise {A B} (c : M A) (k : A -> M B) w e w' :
  c w = (Raise e, w') -> bind c k w = (Raise e, w').
Proof. intros E. unfold bind. now rewrite E. Qed.

Lemma acquire_conforming a (w : world U N) :
  conforming a = true -> acquire_double_c a w = (Ok a, w).
Proof.
  unfold conforming, acquire_double_c. intros H.
  repeat (apply andb_prop in H; destruct H as [H ?]).
  repeat match goal with E : _ = true |- _ => rewrite E; clear E end.
  reflexivity.
Qed.

Lemma acquire_not_conforming a (w : world U N) :
  conforming a = false ->
  exists msg, acquire_double_c a w = (Raise (ValueError msg), w).
Proof.
  unfold conforming, acquire_double_c. intros H.
  destruct (nd_c_contiguous a); [| eauto].
  destruct (Nat.eqb (nd_ndim a) 1); [| eauto].
  destruct (bool_decide (nd_dtype a = NPY_DOUBLE)); [| eauto].
  destruct (nd_native_order a); [discriminate | eauto].
Qed.

Lemma np_zeros_Ok k (w : world U N) :
  0 <= k ->
  np_zeros k w =
  (Ok (NdArray NPY_DOUBLE [k] true true (Addr (length (w_heap w)))),
   set_heap (w_heap w ++ [replicate (Z.to_nat (sizeof_double * k)) 0]) w).
Proof.
  intros Hk. unfold np_zeros.
  destruct (k <? 0) eqn:E; [apply Z.ltb_lt in E; lia |]. reflexivity.
Qed.

Lemma np_zeros_negative k (w : world U N) :
  k < 0 -> exists msg, np_zeros k w = (Raise (ValueError msg), w).
Proof.
  intros Hk. unfold np_zeros.
  destruct (k <? 0) eqn:E; [eauto | apply Z.ltb_ge in E; lia].
Qed.

Lemma length_le_bytes k z : length (le_bytes k z) = k.
Proof. revert z. induction k as [| k IH]; intros z; simpl; [| rewrite IH]; reflexivity. Qed.

Lemma length_double_bytes v :
  Z.of_nat (length (double_bytes v)) = sizeof_double * Z.of_nat (length v).
Proof.
  unfold double_bytes, sizeof_double.
  induction v as [| d v IH]; [reflexivity |].
  cbn [flat_map]. rewrite length_app, length_le_bytes. cbn [length]. lia.
Qed.

Lemma length_int_bytes v :
  Z.of_nat (length (int_bytes v)) = sizeof_int * Z.of_nat (length v).
Proof.
  unfold int_bytes, sizeof_int.
  induction v as [| d v IH]; [reflexivity |].
  cbn [flat_map]. rewrite length_app, length_le_bytes. cbn [length]. lia.
Qed.

(** ** The objective callback *)

(** C10, as the code has it: [eval_f_cb] calls the caller's objective
    function once, on the view of [x], and never raises.  When that call
    returns a number, the callback does not return false: whenever the
    output slot the native driver passes can hold a double, it stores the
    number there and returns true.  When that call raises, the exception is
    not passed on: the callback returns false, and the output slot is left
    as it was. *)
Theorem eval_f_cb_true_unless_eval_f_raises n x new_x obj_value
    (c : IpoptContext U) (w : world U N) :
  let view := ArrayDouble x (ctx_n c) in
  let r := fst (eval_f c view (w_heap w) (w_user w)) in
  let u' := snd (eval_f c view (w_heap w) (w_user w)) in
  (forall e, fst (eval_f_cb n x new_x obj_value c w) <> Raise e)
  /\
  (forall v,
     r = Returns v ->
     fst (eval_f_cb n x new_x obj_value c w) <> Ok false
     /\ forall a db,
          obj_value = Addr a -> w_heap w !! a = Some db ->
          sizeof_double <= Z.of_nat (length db) ->
          eval_f_cb n x new_x obj_value c w =
          (Ok true,
           World (<[a := le_bytes 8 v ++ drop 8 db]> (w_heap w)) u' (w_native w)
                 (w_trace w ++ [CallEvalF view])))
  /\
  (forall e,
     r = Raises e ->
     eval_f_cb n x new_x obj_value c w =
     (Ok false,
      World (w_heap w) u' (w_native w) (w_trace w ++ [CallEvalF view]))).
Proof.
  intros view r u'. subst view r u'.
  unfold eval_f_cb, unraisable, py_eval_f, py_try, log, bind, store_double, ret.
  cbn. destruct (eval_f c _ _ _) as [[v0 | e0] u0]; cbn.
  - split; [| split].
    + intros e. destruct obj_value as [| a]; cbn; [discriminate |].
      destruct (_ !! a) as [db |]; cbn; [| discriminate].
      destruct (sizeof_double <=? _); cbn; discriminate.
    + intros v [= <-]. split.
      * destruct obj_value as [| a]; cbn; [discriminate |].
        destruct (_ !! a) as [db |]; cbn; [| discriminate].
        destruct (sizeof_double <=? _); cbn; discriminate.
      * intros a db -> Hdb Hlen. rewrite Hdb.
        apply Z.leb_le in Hlen. rewrite Hlen. reflexivity.
    + intros e [=].
  - split; [| split].
    + intros e. discriminate.
    + intros v [=].
    + intros e _. reflexivity.
Qed.

(** ** Structure queries and value queries *)

(** [memcpy] touches nothing but the heap. *)
Lemma memcpy_frame dst src count (w : world U N) :
  let w' := snd (memcpy dst src count w) in
  w_trace w' = w_trace w /\ w_user w' = w_user w /\ w_native w' = w_native w.
Proof.
  unfold memcpy. cbn. repeat case_match; cbn; auto.
Qed.



(** ** The length checks of the callbacks *)

(** A value query of the Jacobian callback whose answer has not [nele_jac]
    entries is reported as a failure, and nothing is copied. *)
Lemma eval_jac_g_cb_values_wrong_length n x new_x m nele_jac iRow jCol values
    (c : IpoptContext U) (w : world U N) :
  let view := ArrayDouble x (ctx_n c) in
  let data := fst (eval_jac_g c (Some view) false (w_heap w) (w_user w)) in
  let u' := snd (eval_jac_g c (Some view) false (w_heap w) (w_user w)) in
  ~ (x = NULL /\ iRow <> NULL /\ jCol <> NULL) ->
  Z.of_nat (length data) <> nele_jac ->
  eval_jac_g_cb n x new_x m nele_jac iRow jCol values c w =
  (Ok false,
   World (w_heap w ++ [double_bytes data]) u' (w_native w)
         (w_trace w ++ [CallEvalJacG (Some view) false])).
Proof.
  intros view data u' Hmode Hlen. subst view data u'. unfold eval_jac_g_cb.
  destruct (bool_decide (x = NULL) && bool_decide (iRow <> NULL)
            && bool_decide (jCol <> NULL)) eqn:E.
  { rewrite !andb_true_iff, !bool_decide_eq_true in E. tauto. }
  unfold_adapter. cbn.
  destruct (eval_jac_g c _ false _ _) as [data u']. cbn in *.
  unfold nd_size. cbn. rewrite Z.mul_1_r.
  apply Z.eqb_neq in Hlen. rewrite Hlen. reflexivity.
Qed.

(** A value query of the Jacobian callback whose answer has [nele_jac]
    entries is copied whole into the buffer [values] of the native solver:
    the copy reads exactly the bytes of the returned array. *)
Lemma eval_jac_g_cb_values_copied n x new_x m nele_jac iRow jCol a db
    (c : IpoptContext U) (w : world U N) :
  let view := ArrayDouble x (ctx_n c) in
  let data := fst (eval_jac_g c (Some view) false (w_heap w) (w_user w)) in
  let u' := snd (eval_jac_g c (Some view) false (w_heap w) (w_user w)) in
  ~ (x = NULL /\ iRow <> NULL /\ jCol <> NULL) ->
  Z.of_nat (length data) = nele_jac -> fits_c_int nele_jac = true ->
  w_heap w !! a = Some db ->
  sizeof_double * nele_jac <= Z.of_nat (length db) ->
  size_t_mul sizeof_double nele_jac = Z.of_nat (length (double_bytes data)) /\
  eval_jac_g_cb n x new_x m nele_jac iRow jCol (Addr a) c w =
  (Ok true,
   World (<[a := double_bytes data ++ drop (length (double_bytes data)) db]>
            (w_heap w ++ [double_bytes data]))
         u' (w_native w) (w_trace w ++ [CallEvalJacG (Some view) false])).
Proof.
  intros view data u' Hmode Hlen Hfit Hdb Hroom. subst view data u'.
  assert (Hcount : size_t_mul sizeof_double nele_jac
                   = Z.of_nat (length (double_bytes
                       (fst (eval_jac_g c (Some (ArrayDouble x (ctx_n c))) false
                                        (w_heap w) (w_user w)))))).
  { rewrite length_double_bytes, Hlen. unfold size_t_mul.
    unfold fits_c_int in Hfit. apply andb_prop in Hfit as [_ Hhi].
    apply Z.ltb_lt in Hhi. apply Z.mod_small. unfold sizeof_double. lia. }
  split; [exact Hcount |].
  unfold eval_jac_g_cb.
  destruct (bool_decide (x = NULL) && bool_decide (iRow <> NULL)
            && bool_decide (jCol <> NULL)) eqn:E.
  { rewrite !andb_true_iff, !bool_decide_eq_true in E. tauto. }
  unfold_adapter. cbn.
  destruct (eval_jac_g c _ false _ _) as [data u']. cbn in *.
  unfold nd_size. cbn. rewrite Z.mul_1_r.
  apply Z.eqb_eq in Hlen. rewrite Hlen. cbn.
  unfold memcpy. cbn.
  pose proof (lookup_lt_Some _ _ _ Hdb) as Ha.
  rewrite (lookup_app_l _ _ _ Ha), Hdb.
  rewrite lookup_app_r, Nat.sub_diag by lia. cbn.
  rewrite bool_decide_eq_true_2 by lia.
  rewrite Hcount, Nat2Z.id, Z.leb_refl. cbn.
  apply Z.eqb_eq in Hlen.
  assert (Hle : (Z.of_nat (length (double_bytes data)) <=? Z.of_nat (length db)) = true).
  { apply Z.leb_le. rewrite length_double_bytes, Hlen. exact Hroom. }
  rewrite Hle, firstn_all. reflexivity.
Qed.

(** A structure query of the Jacobian callback whose row or column array has
    not [nele_jac] entries is reported as a failure, and nothing is copied. *)
Lemma eval_jac_g_cb_structure_wrong_length n new_x m nele_jac iRow jCol values
    (c : IpoptContext U) (w : world U N) :
  let J := eval_jac_g c None true (w_heap w) (w_user w) in
  let rows : list Z := fst (fst J) in
  let cols : list Z := snd (fst J) in
  iRow <> NULL -> jCol <> NULL ->
  Z.of_nat (length rows) <> nele_jac \/ Z.of_nat (length cols) <> nele_jac ->
  eval_jac_g_cb n NULL new_x m nele_jac iRow jCol values c w =
  (Ok false,
   World (w_heap w ++ [int_bytes rows; int_bytes cols]) (snd J) (w_native w)
         (w_trace w ++ [CallEvalJacG None true])).
Proof.
  intros J rows cols Hr Hc Hlen. subst J rows cols. unfold eval_jac_g_cb.
  rewrite !bool_decide_eq_true_2 by auto. cbn [andb].
  unfold_adapter. cbn.
  destruct (eval_jac_g c None true _ _) as [[rows cols] u']. cbn in *.
  unfold nd_size. cbn. rewrite !Z.mul_1_r.
  assert ((negb (Z.of_nat (length rows) =? nele_jac)
           || negb (Z.of_nat (length cols) =? nele_jac)) = true) as ->.
  { apply orb_true_iff. rewrite !negb_true_iff, !Z.eqb_neq. exact Hlen. }
  rewrite <- app_assoc. reflexivity.
Qed.

(** The same two facts for the Hessian callback. *)
Lemma eval_h_cb_values_wrong_length n x new_x obj_factor m lam new_lam nele_hess
    iRow jCol values (c : IpoptContext U) (w : world U N) :
  let ans := eval_h c (Some (ArrayDouble x (ctx_n c)))
                      (Some (ArrayDouble lam (ctx_m c))) (Some obj_factor) false
                      (w_heap w) (w_user w) in
  let data : list double := fst ans in
  ~ (x = NULL /\ iRow <> NULL /\ jCol <> NULL) ->
  Z.of_nat (length data) <> nele_hess ->
  eval_h_cb n x new_x obj_factor m lam new_lam nele_hess iRow jCol values c w =
  (Ok false,
   World (w_heap w ++ [double_bytes data]) (snd ans) (w_native w)
         (w_trace w ++ [CallEvalH (Some (ArrayDouble x (ctx_n c)))
                                  (Some (ArrayDouble lam (ctx_m c)))
                                  (Some obj_factor) false])).
Proof.
  intros ans data Hmode Hlen. subst ans data. unfold eval_h_cb.
  destruct (bool_decide (x = NULL) && bool_decide (iRow <> NULL)
            && bool_decide (jCol <> NULL)) eqn:E.
  { rewrite !andb_true_iff, !bool_decide_eq_true in E. tauto. }
  unfold_adapter. cbn.
  destruct (eval_h c _ _ _ false _ _) as [data u']. cbn in *.
  unfold nd_size. cbn. rewrite Z.mul_1_r.
  apply Z.eqb_neq in Hlen. rewrite Hlen. reflexivity.
Qed.

Lemma eval_h_cb_structure_wrong_length n new_x obj_factor m lam new_lam nele_hess
    iRow jCol values (c : IpoptContext U) (w : world U N) :
  let H := eval_h c None None None true (w_heap w) (w_user w) in
  let rows : list Z := fst (fst H) in
  let cols : list Z := snd (fst H) in
  iRow <> NULL -> jCol <> NULL ->
  Z.of_nat (length rows) <> nele_hess \/ Z.of_nat (length cols) <> nele_hess ->
  eval_h_cb n NULL new_x obj_factor m lam new_lam nele_hess iRow jCol values c w =
  (Ok false,
   World (w_heap w ++ [int_bytes rows; int_bytes cols]) (snd H) (w_native w)
         (w_trace w ++ [CallEvalH None None None true])).
Proof.
  intros H rows cols Hr Hc Hlen. subst H rows cols. unfold eval_h_cb.
  rewrite !bool_decide_eq_true_2 by auto. cbn [andb].
  unfold_adapter. cbn.
  destruct (eval_h c None None None true _ _) as [[rows cols] u']. cbn in *.
  unfold nd_size. cbn. rewrite !Z.mul_1_r.
  assert ((negb (Z.of_nat (length rows) =? nele_hess)
           || negb (Z.of_nat (length cols) =? nele_hess)) = true) as ->.
  { apply orb_true_iff. rewrite !negb_true_iff, !Z.eqb_neq. exact Hlen. }
  rewrite <- app_assoc. reflexivity.
Qed.

(** ** Construction *)

Lemma create_problem_Ok (self : IpoptContext U) (w : world U N) :
  let args :=
    CreateArgs (ctx_n self) (nd_data (ctx_l self)) (nd_data (ctx_u self))
               (ctx_m self) (nd_data (ctx_gl self)) (nd_data (ctx_gu self))
               (ctx_nnzj self) (ctx_nnzh self) 0 in
  conforming (ctx_l self) && conforming (ctx_u self)
  && conforming (ctx_gl self) && conforming (ctx_gu self) = true ->
  create_problem self w =
  (Ok (set_problem (fst (CreateIpoptProblem args (w_native w))) self),
   World (w_heap w) (w_user w) (snd (CreateIpoptProblem args (w_native w)))
         (w_trace w ++ [NativeCreate args])).
Proof.
  intros args H. rewrite !andb_true_iff in H. destruct H as [[[Hl Hu] Hgl] Hgu].
  unfold create_problem.
  rewrite (bind_Ok _ _ _ _ _ (acquire_conforming _ w Hl)).
  rewrite (bind_Ok _ _ _ _ _ (acquire_conforming _ w Hu)).
  rewrite (bind_Ok _ _ _ _ _ (acquire_conforming _ w Hgl)).
  rewrite (bind_Ok _ _ _ _ _ (acquire_conforming _ w Hgu)).
  fold args. unfold_adapter. cbn.
  destruct (CreateIpoptProblem args (w_native w)) as [p s']. reflexivity.
Qed.

Lemma create_problem_Raise (self : IpoptContext U) (w : world U N) :
  conforming (ctx_l self) && conforming (ctx_u self)
  && conforming (ctx_gl self) && conforming (ctx_gu self) = false ->
  exists msg, create_problem self w = (Raise (ValueError msg), w).
Proof.
  intros H. unfold create_problem.
  destruct (conforming (ctx_l self)) eqn:Hl.
  2:{ destruct (acquire_not_conforming _ w Hl) as [msg E].
      exists msg. now rewrite (bind_Raise _ _ _ _ _ E). }
  rewrite (bind_Ok _ _ _ _ _ (acquire_conforming _ w Hl)).
  destruct (conforming (ctx_u self)) eqn:Hu.
  2:{ destruct (acquire_not_conforming _ w Hu) as [msg E].
      exists msg. now rewrite (bind_Raise _ _ _ _ _ E). }
  rewrite (bind_Ok _ _ _ _ _ (acquire_conforming _ w Hu)).
  destruct (conforming (ctx_gl self)) eqn:Hgl.
  2:{ destruct (acquire_not_conforming _ w Hgl) as [msg E].
      exists msg. now rewrite (bind_Raise _ _ _ _ _ E). }
  rewrite (bind_Ok _ _ _ _ _ (acquire_conforming _ w Hgl)).
  destruct (conforming (ctx_gu self)) eqn:Hgu; [discriminate |].
  destruct (acquire_not_conforming _ w Hgu) as [msg E].
  exists msg. now rewrite (bind_Raise _ _ _ _ _ E).
Qed.

(** [__init__] step by step: the two conversions, the Jacobian query and
    its assertion, the Hessian query and its assertion, and then
    [create_problem]. *)
Lemma init_unfold n m l u gl gu (f : objective_fn U) (g gf : vector_fn U)
    (jac : jacobian_fn U) (h : hessian_fn U) (w : world U N) :
  let J := jac None true (w_heap w) (w_user w) in
  let Jrow : list Z := fst (fst J) in
  let Jcol : list Z := snd (fst J) in
  let heap1 := w_heap w ++ [int_bytes Jrow; int_bytes Jcol] in
  let w1 := World heap1 (snd J) (w_native w) (w_trace w ++ [CallEvalJacG None true]) in
  let H := h None None None true heap1 (snd J) in
  let Hrow : list Z := fst (fst H) in
  let Hcol : list Z := snd (fst H) in
  let w2 :=
    World (heap1 ++ [int_bytes Hrow; int_bytes Hcol]) (snd H) (w_native w)
          (w_trace w ++ [CallEvalJacG None true; CallEvalH None None None true]) in
  __init__ n m l u gl gu f g gf jac h w =
  if negb (fits_c_int n) then (Raise OverflowError, w)
  else if negb (fits_c_int m) then (Raise OverflowError, w)
  else if negb (Nat.eqb (length Jrow) (length Jcol)) then (Raise AssertionError, w1)
  else if negb (fits_c_int (Z.of_nat (length Jrow))) then (Raise OverflowError, w1)
  else if negb (Nat.eqb (length Hrow) (length Hcol)) then (Raise AssertionError, w2)
  else if negb (fits_c_int (Z.of_nat (length Hrow))) then (Raise OverflowError, w2)
  else
    create_problem
      (MkContext n m (Z.of_nat (length Jrow)) (Z.of_nat (length Hrow))
                 l u gl gu f g gf jac h NullProblem) w2.
Proof.
  intros J Jrow Jcol heap1 w1 H Hrow Hcol w2.
  subst w2 Hcol Hrow H w1 heap1 Jcol Jrow J.
  unfold __init__. unfold_adapter.
  destruct (fits_c_int n); cbn; [| reflexivity].
  destruct (fits_c_int m); cbn; [| reflexivity].
  destruct (jac None true (w_heap w) (w_user w)) as [[Jrow Jcol] u1]. cbn.
  unfold nd_size. cbn. rewrite !Z.mul_1_r.
  replace (Z.of_nat (length Jrow) =? Z.of_nat (length Jcol))
    with (Nat.eqb (length Jrow) (length Jcol)).
  2:{ destruct (Nat.eqb_spec (length Jrow) (length Jcol)) as [-> | Hne].
      - now rewrite Z.eqb_refl.
      - symmetry. apply Z.eqb_neq. lia. }
  rewrite <- !app_assoc. cbn [app].
  destruct (Nat.eqb (length Jrow) (length Jcol)); cbn; [| reflexivity].
  destruct (fits_c_int (Z.of_nat (length Jrow))); cbn; [| reflexivity].
  destruct (h None None None true _ u1) as [[Hrow Hcol] u2]. cbn.
  rewrite !Z.mul_1_r.
  replace (Z.of_nat (length Hrow) =? Z.of_nat (length Hcol))
    with (Nat.eqb (length Hrow) (length Hcol)).
  2:{ destruct (Nat.eqb_spec (length Hrow) (length Hcol)) as [-> | Hne].
      - now rewrite Z.eqb_refl.
      - symmetry. apply Z.eqb_neq. lia. }
  rewrite <- !app_assoc. cbn [app].
  destruct (Nat.eqb (length Hrow) (length Hcol)); cbn; [| reflexivity].
  destruct (fits_c_int (Z.of_nat (length Hrow))); cbn; reflexivity.
Qed.

(** C3: a construction that succeeds has queried the Jacobian callback once
    and the Hessian callback once, both as structure queries, has found the
    row and column arrays of each answer equally long, has recorded those
    lengths as [nnzj] and [nnzh], and only then has created the native
    problem.  When the row and column arrays of either answer disagree in
    length, construction raises, and it has made no call into the native
    library. *)
Theorem init_structure_queries n m l u gl gu (f : objective_fn U) (g gf : vector_fn U)
    (jac : jacobian_fn U) (h : hessian_fn U) (w : world U N) :
  let J := jac None true (w_heap w) (w_user w) in
  let Jrow : list Z := fst (fst J) in
  let Jcol : list Z := snd (fst J) in
  let heap1 := w_heap w ++ [int_bytes Jrow; int_bytes Jcol] in
  let H := h None None None true heap1 (snd J) in
  let Hrow : list Z := fst (fst H) in
  let Hcol : list Z := snd (fst H) in
  (forall self w',
     __init__ n m l u gl gu f g gf jac h w = (Ok self, w') ->
     length Jrow = length Jcol /\ ctx_nnzj self = Z.of_nat (length Jrow) /\
     length Hrow = length Hcol /\ ctx_nnzh self = Z.of_nat (length Hrow) /\
     exists args,
       w_trace w' =
       w_trace w ++ [CallEvalJacG None true; CallEvalH None None None true;
                     NativeCreate args])
  /\
  (length Jrow <> length Jcol \/ length Hrow <> length Hcol ->
   exists e w' evs,
     __init__ n m l u gl gu f g gf jac h w = (Raise e, w') /\
     (e = AssertionError \/ e = OverflowError) /\
     w_trace w' = w_trace w ++ evs /\ no_native_call evs = true /\
     w_native w' = w_native w).
Proof.
  intros J Jrow Jcol heap1 H Hrow Hcol.
  pose proof (init_unfold n m l u gl gu f g gf jac h w) as E. cbn zeta in E.
  fold J Jrow Jcol heap1 H Hrow Hcol in E. rewrite E. clear E.
  split.
  - intros self w'.
    destruct (fits_c_int n); cbn [negb]; [| discriminate].
    destruct (fits_c_int m); cbn [negb]; [| discriminate].
    destruct (Nat.eqb_spec (length Jrow) (length Jcol)) as [EJ | NJ];
      cbn [negb]; [| discriminate].
    destruct (fits_c_int (Z.of_nat (length Jrow))); cbn [negb]; [| discriminate].
    destruct (Nat.eqb_spec (length Hrow) (length Hcol)) as [EH | NH];
      cbn [negb]; [| discriminate].
    destruct (fits_c_int (Z.of_nat (length Hrow))); cbn [negb]; [| discriminate].
    match goal with |- create_problem ?s ?w2 = _ -> _ =>
      destruct (conforming (ctx_l s) && conforming (ctx_u s)
                && conforming (ctx_gl s) && conforming (ctx_gu s)) eqn:C;
      [ rewrite (create_problem_Ok s w2 C)
      | destruct (create_problem_Raise s w2 C) as [msg ->]; discriminate ]
    end.
    intros [= <- <-]. cbn. repeat split; auto.
    eexists. rewrite <- app_assoc. reflexivity.
  - intros Hne.
    destruct (fits_c_int n); cbn [negb].
    2:{ exists OverflowError, w, []. rewrite app_nil_r. auto 6. }
    destruct (fits_c_int m); cbn [negb].
    2:{ exists OverflowError, w, []. rewrite app_nil_r. auto 6. }
    destruct (Nat.eqb_spec (length Jrow) (length Jcol)) as [EJ | NJ]; cbn [negb].
    2:{ do 2 eexists. exists [CallEvalJacG None true]. cbn. auto 6. }
    destruct (fits_c_int (Z.of_nat (length Jrow))); cbn [negb].
    2:{ do 2 eexists. exists [CallEvalJacG None true]. cbn. auto 6. }
    destruct Hne as [Hne | Hne]; [contradiction |].
    destruct (Nat.eqb_spec (length Hrow) (length Hcol)) as [EH | NH];
      [contradiction |]. cbn [negb].
    do 2 eexists. exists [CallEvalJacG None true; CallEvalH None None None true].
    cbn. auto 6.
Qed.

(** C8, as the code has it: construction raises, without a call into the
    native library, whenever one of the four bound arrays is not a
    C-contiguous, one-dimensional buffer of native doubles; the length of a
    bound array is compared with neither [n] nor [m].  When all four conform
    (and the steps before [create_problem] succeed), the native problem is
    created on the data pointers of the caller's own arrays, and no buffer is
    allocated for a bound. *)
Theorem init_bound_buffers n m l u gl gu (f : objective_fn U) (g gf : vector_fn U)
    (jac : jacobian_fn U) (h : hessian_fn U) (w : world U N) :
  let J := jac None true (w_heap w) (w_user w) in
  let Jrow : list Z := fst (fst J) in
  let Jcol : list Z := snd (fst J) in
  let heap1 := w_heap w ++ [int_bytes Jrow; int_bytes Jcol] in
  let H := h None None None true heap1 (snd J) in
  let Hrow : list Z := fst (fst H) in
  let Hcol : list Z := snd (fst H) in
  let args :=
    CreateArgs n (nd_data l) (nd_data u) m (nd_data gl) (nd_data gu)
               (Z.of_nat (length Jrow)) (Z.of_nat (length Hrow)) 0 in
  (conforming l && conforming u && conforming gl && conforming gu = false ->
   exists e w' evs,
     __init__ n m l u gl gu f g gf jac h w = (Raise e, w') /\
     w_trace w' = w_trace w ++ evs /\ no_native_call evs = true /\
     w_native w' = w_native w)
  /\
  (conforming l && conforming u && conforming gl && conforming gu = true ->
   fits_c_int n = true -> fits_c_int m = true ->
   length Jrow = length Jcol -> fits_c_int (Z.of_nat (length Jrow)) = true ->
   length Hrow = length Hcol -> fits_c_int (Z.of_nat (length Hrow)) = true ->
   __init__ n m l u gl gu f g gf jac h w =
   (Ok (MkContext n m (Z.of_nat (length Jrow)) (Z.of_nat (length Hrow))
                  l u gl gu f g gf jac h
                  (fst (CreateIpoptProblem args (w_native w)))),
    World (heap1 ++ [int_bytes Hrow; int_bytes Hcol]) (snd H)
          (snd (CreateIpoptProblem args (w_native w)))
          (w_trace w ++ [CallEvalJacG None true; CallEvalH None None None true;
                         NativeCreate args]))).
Proof.
  intros J Jrow Jcol heap1 H Hrow Hcol args.
  pose proof (init_unfold n m l u gl gu f g gf jac h w) as E. cbn zeta in E.
  fold J Jrow Jcol heap1 H Hrow Hcol in E. rewrite E. clear E.
  split.
  - intros C.
    destruct (fits_c_int n); cbn [negb].
    2:{ exists OverflowError, w, []. rewrite app_nil_r. auto. }
    destruct (fits_c_int m); cbn [negb].
    2:{ exists OverflowError, w, []. rewrite app_nil_r. auto. }
    destruct (Nat.eqb (length Jrow) (length Jcol)); cbn [negb].
    2:{ do 2 eexists. exists [CallEvalJacG None true]. cbn. auto. }
    destruct (fits_c_int (Z.of_nat (length Jrow))); cbn [negb].
    2:{ do 2 eexists. exists [CallEvalJacG None true]. cbn. auto. }
    destruct (Nat.eqb (length Hrow) (length Hcol)); cbn [negb].
    2:{ do 2 eexists.
        exists [CallEvalJacG None true; CallEvalH None None None true].
        cbn. auto. }
    destruct (fits_c_int (Z.of_nat (length Hrow))); cbn [negb].
    2:{ do 2 eexists.
        exists [CallEvalJacG None true; CallEvalH None None None true].
        cbn. auto. }
    match goal with |- exists e w' evs, create_problem ?s ?w2 = _ /\ _ =>
      destruct (create_problem_Raise s w2 C) as [msg ->]
    end.
    do 2 eexists.
    exists [CallEvalJacG None true; CallEvalH None None None true].
    cbn. auto.
  - intros C Hn Hm EJ HJ EH HH.
    rewrite Hn, Hm, HJ, HH. apply Nat.eqb_eq in EJ, EH. rewrite EJ, EH.
    cbn [negb].
    match goal with |- create_problem ?s ?w2 = _ =>
      rewrite (create_problem_Ok s w2 C)
    end.
    cbn. rewrite <- app_assoc. reflexivity.
Qed.

(** ** Options *)

Lemma fits_c_int_bool (b : bool) : fits_c_int (if b then 1 else 0) = true.
Proof. destruct b; reflexivity. Qed.

(** C4, as the code has it: [add_option] chooses the native setter by the
    type of the value and calls exactly that one: the integer setter for an
    [int] that fits a C [int] (a [bool] is an [int]), the string setter for a
    [str], the numeric setter for a [float].  For an [int] outside the range
    of a C [int] it raises [OverflowError], and for a value of any other type
    [ValueError]; in both cases the world is as it was: no native setter is
    called. *)
Theorem add_option_dispatch (self : IpoptContext U) key val (w : world U N) :
  let p := ctx_problem self in
  let called (e : event) (s' : N) :=
    snd (add_option self key val w) =
    World (w_heap w) (w_user w) s' (w_trace w ++ [e]) in
  match val with
  | PyInt z =>
      if fits_c_int z then
        called (NativeAddInt p key z) (snd (AddIpoptIntOption p key z (w_native w)))
      else add_option self key val w = (Raise OverflowError, w)
  | PyBool b =>
      called (NativeAddInt p key (if b then 1 else 0))
             (snd (AddIpoptIntOption p key (if b then 1 else 0) (w_native w)))
  | PyStr s =>
      called (NativeAddStr p key s) (snd (AddIpoptStrOption p key s (w_native w)))
  | PyFloat d =>
      called (NativeAddNum p key d) (snd (AddIpoptNumOption p key d (w_native w)))
  | PyNone | PyArray _ =>
      add_option self key val w = (Raise (ValueError "invalid value"), w)
  end.
Proof.
  intros p called. subst p called.
  destruct val as [| b | z | d | s | a]; unfold add_option; unfold_adapter; cbn;
    try reflexivity.
  - rewrite fits_c_int_bool. cbn.
    destruct (AddIpoptIntOption _ _ _ _) as [[|] s']; reflexivity.
  - destruct (fits_c_int z); cbn; [| reflexivity].
    destruct (AddIpoptIntOption _ _ _ _) as [[|] s']; reflexivity.
  - destruct (AddIpoptNumOption _ _ _ _) as [[|] s']; reflexivity.
  - destruct (AddIpoptStrOption _ _ _ _) as [[|] s']; reflexivity.
Qed.

(** C5: [add_option] raises [IpoptContextError] exactly when the native
    setter it calls rejects the pair; when the setter accepts the pair it
    returns without raising.  No setter is called for an [int] outside the
    range of a C [int] or for a value of an unsupported type: the errors
    raised then, [OverflowError] and [ValueError], are not
    [IpoptContextError]. *)
Theorem add_option_error_iff_rejected (self : IpoptContext U) key val (w : world U N) :
  let p := ctx_problem self in
  let answer (b : bool) : Prop :=
    match val with
    | PyInt z =>
        fits_c_int z = true /\ fst (AddIpoptIntOption p key z (w_native w)) = b
    | PyBool c => fst (AddIpoptIntOption p key (if c then 1 else 0) (w_native w)) = b
    | PyStr s => fst (AddIpoptStrOption p key s (w_native w)) = b
    | PyFloat d => fst (AddIpoptNumOption p key d (w_native w)) = b
    | PyNone | PyArray _ => False
    end in
  ((exists value, fst (add_option self key val w) = Raise (IpoptContextError value))
   <-> answer false)
  /\ (fst (add_option self key val w) = Ok tt <-> answer true)
  /\ (fst (add_option self key val w)
      = Raise (IpoptContextError ("option " +:+ key +:+ " could not be set"))
      <-> answer false).
Proof.
  intros p answer. subst p answer.
  destruct val as [| b | z | d | s | a]; unfold add_option; unfold_adapter; cbn.
  - repeat split; try (intros [? ?]); try discriminate; try contradiction.
  - rewrite fits_c_int_bool. cbn.
    destruct (AddIpoptIntOption _ _ _ _) as [[|] s']; cbn;
      repeat split; try (intros [? ?]); try discriminate; eauto.
  - destruct (fits_c_int z); cbn.
    + destruct (AddIpoptIntOption _ _ _ _) as [[|] s']; cbn; naive_solver.
    + naive_solver.
  - destruct (AddIpoptNumOption _ _ _ _) as [[|] s']; cbn;
      repeat split; try (intros [? ?]); try discriminate; eauto.
  - destruct (AddIpoptStrOption _ _ _ _) as [[|] s']; cbn;
      repeat split; try (intros [? ?]); try discriminate; eauto.
  - repeat split; try (intros [? ?]); try discriminate; try contradiction.
Qed.

(** ** Solving *)

(** [solve] on a conforming starting point, for a context whose counts are
    not negative: the three multiplier arrays are allocated, the driver runs,
    and the dictionary is built. *)
Lemma solve_Ok (self : IpoptContext U) x (w : world U N) :
  let k := length (w_heap w) in
  let nlam := NdArray NPY_DOUBLE [ctx_m self] true true (Addr k) in
  let npi := NdArray NPY_DOUBLE [ctx_n self] true true (Addr (S k)) in
  let nmu := NdArray NPY_DOUBLE [ctx_n self] true true (Addr (S (S k))) in
  let args :=
    SolveArgs (ctx_problem self) (nd_data x) NULL NULL
              (Addr k) (Addr (S k)) (Addr (S (S k))) in
  let w1 :=
    World (w_heap w ++
             [replicate (Z.to_nat (sizeof_double * ctx_m self)) 0;
              replicate (Z.to_nat (sizeof_double * ctx_n self)) 0;
              replicate (Z.to_nat (sizeof_double * ctx_n self)) 0])
          (w_user w) (w_native w) (w_trace w ++ [NativeSolve args]) in
  conforming x = true -> 0 <= ctx_n self -> 0 <= ctx_m self ->
  solve self x w =
  (Ok [("status", PyInt (fst (IpoptSolve args self w1)));
       ("x", PyArray x); ("lam", PyArray nlam);
       ("pi", PyArray npi); ("mu", PyArray nmu)],
   snd (IpoptSolve args self w1)).
Proof.
  intros k nlam npi nmu args w1 Hx Hn Hm. subst k nlam npi nmu args w1.
  unfold solve.
  rewrite (bind_Ok _ _ _ _ _ (acquire_conforming _ w Hx)).
  rewrite (bind_Ok _ _ _ _ _ (np_zeros_Ok _ w Hm)).
  rewrite (bind_Ok _ _ _ _ _ (np_zeros_Ok _ _ Hn)).
  rewrite (bind_Ok _ _ _ _ _ (np_zeros_Ok _ _ Hn)).
  unfold_adapter. cbn. rewrite !length_app. cbn [length].
  replace (length (w_heap w) + 1)%nat with (S (length (w_heap w))) by lia.
  replace (S (length (w_heap w)) + 1)%nat with (S (S (length (w_heap w)))) by lia.
  rewrite <- !app_assoc. cbn [app].
  destruct (IpoptSolve _ self _) as [status w2]. reflexivity.
Qed.

(** A call of [solve] that returns was given a conforming starting point and
    a context whose counts are not negative. *)
Lemma solve_Ok_inv (self : IpoptContext U) x (w : world U N) r w' :
  solve self x w = (Ok r, w') ->
  conforming x = true /\ 0 <= ctx_n self /\ 0 <= ctx_m self.
Proof.
  unfold solve. intros E.
  destruct (conforming x) eqn:Hx.
  2:{ destruct (acquire_not_conforming _ w Hx) as [msg E'].
      rewrite (bind_Raise _ _ _ _ _ E') in E. discriminate. }
  rewrite (bind_Ok _ _ _ _ _ (acquire_conforming _ w Hx)) in E.
  destruct (Z_lt_le_dec (ctx_m self) 0) as [Hm | Hm].
  { destruct (np_zeros_negative _ w Hm) as [msg E'].
    rewrite (bind_Raise _ _ _ _ _ E') in E. discriminate. }
  rewrite (bind_Ok _ _ _ _ _ (np_zeros_Ok _ w Hm)) in E.
  destruct (Z_lt_le_dec (ctx_n self) 0) as [Hn | Hn]; [| auto].
  match type of E with bind (np_zeros _) _ ?w1 = _ =>
    destruct (np_zeros_negative _ w1 Hn) as [msg E']
  end.
  rewrite (bind_Raise _ _ _ _ _ E') in E. discriminate.
Qed.

(** C6: a call of [solve] with a starting point of [n] doubles returns the
    dictionary with the keys [status], [x], [lam], [pi] and [mu], in which
    [lam] has [m] entries and [pi] and [mu] have [n] entries each; the three
    arrays are new buffers of zero bytes in the world the native driver is
    started in. *)
Theorem solve_result_shape (self : IpoptContext U) x (w : world U N) :
  let k := length (w_heap w) in
  let nlam := NdArray NPY_DOUBLE [ctx_m self] true true (Addr k) in
  let npi := NdArray NPY_DOUBLE [ctx_n self] true true (Addr (S k)) in
  let nmu := NdArray NPY_DOUBLE [ctx_n self] true true (Addr (S (S k))) in
  let args :=
    SolveArgs (ctx_problem self) (nd_data x) NULL NULL
              (nd_data nlam) (nd_data npi) (nd_data nmu) in
  let w1 :=
    World (w_heap w ++
             [replicate (Z.to_nat (sizeof_double * ctx_m self)) 0;
              replicate (Z.to_nat (sizeof_double * ctx_n self)) 0;
              replicate (Z.to_nat (sizeof_double * ctx_n self)) 0])
          (w_user w) (w_native w) (w_trace w ++ [NativeSolve args]) in
  let status := fst (IpoptSolve args self w1) in
  conforming x = true -> nd_size x = ctx_n self ->
  0 <= ctx_n self -> 0 <= ctx_m self ->
  solve self x w =
  (Ok [("status", PyInt status); ("x", PyArray x); ("lam", PyArray nlam);
       ("pi", PyArray npi); ("mu", PyArray nmu)],
   snd (IpoptSolve args self w1))
  /\ nd_size x = ctx_n self /\ nd_size nlam = ctx_m self
  /\ nd_size npi = ctx_n self /\ nd_size nmu = ctx_n self
  /\ w_heap w !! k = None
  /\ w_heap w1 !! k = Some (replicate (Z.to_nat (sizeof_double * ctx_m self)) 0)
  /\ w_heap w1 !! S k = Some (replicate (Z.to_nat (sizeof_double * ctx_n self)) 0)
  /\ w_heap w1 !! S (S k) = Some (replicate (Z.to_nat (sizeof_double * ctx_n self)) 0).
Proof.
  intros k nlam npi nmu args w1 status Hx Hsz Hn Hm.
  split; [exact (solve_Ok self x w Hx Hn Hm) |].
  split; [exact Hsz |].
  unfold nd_size. cbn [nlam npi nmu nd_shape foldr]. rewrite !Z.mul_1_r.
  repeat split.
  - apply lookup_ge_None. subst k. lia.
  - subst w1 k. cbn [w_heap]. now rewrite lookup_app_r, Nat.sub_diag by lia.
  - subst w1 k. cbn [w_heap]. rewrite lookup_app_r by lia.
    now replace (S (length (w_heap w)) - length (w_heap w))%nat with 1%nat by lia.
  - subst w1 k. cbn [w_heap]. rewrite lookup_app_r by lia.
    now replace (S (S (length (w_heap w))) - length (w_heap w))%nat with 2%nat by lia.
Qed.

(** C7, as the code has it: in the dictionary [solve] returns, [lam], [pi]
    and [mu] are arrays over three buffers that did not exist before the
    call, distinct from one another and from every buffer of the caller;
    [x] is the caller's own array, and its data pointer is the one the native
    driver is given, so the driver writes the final point into the caller's
    buffer.  Nothing is copied. *)
Theorem solve_outputs_fresh_x_shared (self : IpoptContext U) x (w : world U N) r w' :
  solve self x w = (Ok r, w') ->
  exists status nlam npi nmu kl kp km w1,
    r = [("status", PyInt status); ("x", PyArray x); ("lam", PyArray nlam);
         ("pi", PyArray npi); ("mu", PyArray nmu)]
    /\ nd_data nlam = Addr kl /\ nd_data npi = Addr kp /\ nd_data nmu = Addr km
    /\ w_heap w !! kl = None /\ w_heap w !! kp = None /\ w_heap w !! km = None
    /\ kl <> kp /\ kl <> km /\ kp <> km
    /\ (forall a, nd_data x = Addr a -> is_Some (w_heap w !! a) ->
        a <> kl /\ a <> kp /\ a <> km)
    /\ IpoptSolve (SolveArgs (ctx_problem self) (nd_data x) NULL NULL
                             (Addr kl) (Addr kp) (Addr km)) self w1
       = (status, w')
    /\ w_heap w1 = w_heap w ++ [replicate (Z.to_nat (sizeof_double * ctx_m self)) 0;
                                replicate (Z.to_nat (sizeof_double * ctx_n self)) 0;
                                replicate (Z.to_nat (sizeof_double * ctx_n self)) 0].
Proof.
  intros E. destruct (solve_Ok_inv _ _ _ _ _ E) as (Hx & Hn & Hm).
  rewrite (solve_Ok self x w Hx Hn Hm) in E. injection E as <- <-.
  set (k := length (w_heap w)).
  match goal with |- context [IpoptSolve ?a self ?w1] =>
    exists (fst (IpoptSolve a self w1)); do 3 eexists;
    exists k, (S k), (S (S k)), w1
  end.
  split; [reflexivity |]. cbn [nd_data w_heap].
  repeat split; try reflexivity; try lia;
    try (apply lookup_ge_None; subst k; lia);
    try (match goal with H : is_Some _ |- _ =>
           apply lookup_lt_is_Some in H; fold k in H; lia end).
  apply surjective_pairing.
Qed.

(** C9: [solve] does not compare the length of the starting point with [n].
    Every C-contiguous, one-dimensional array of native doubles is accepted,
    whatever its length (the counts of the context being not negative): the
    call returns without raising, and the native driver has been started on
    the data pointer of that array. *)
Theorem solve_accepts_any_length (self : IpoptContext U) x (w : world U N) :
  conforming x = true -> 0 <= ctx_n self -> 0 <= ctx_m self ->
  exists r w' status args w1,
    solve self x w = (Ok r, w')
    /\ dict_get "status" r = Some (PyInt status)
    /\ dict_get "x" r = Some (PyArray x)
    /\ sa_x args = nd_data x
    /\ w_trace w1 = w_trace w ++ [NativeSolve args]
    /\ IpoptSolve args self w1 = (status, w').
Proof.
  intros Hx Hn Hm. pose proof (solve_Ok self x w Hx Hn Hm) as E.
  cbn zeta in E.
  match type of E with _ = (Ok ?r, snd (IpoptSolve ?a self ?w1)) =>
    exists r, (snd (IpoptSolve a self w1)), (fst (IpoptSolve a self w1)), a, w1
  end.
  split; [exact E |]. cbn. repeat split. apply surjective_pairing.
Qed.

End Properties.

(** * The adapter on the small problem *)

Section Runs.

Import Demo.

(** C1: the gradient callback does not check the length of the array the
    caller's function returns.  On the problem with two variables, a
    gradient of three entries is not reported as a failure: the callback
    copies the first two entries into the buffer of the native solver and
    returns true.  A gradient of one entry is not reported either: the copy
    of two doubles reads past the end of the returned buffer. *)
Theorem eval_grad_f_cb_wrong_length_not_rejected :
  (exists w',
     eval_grad_f_cb 2 (Addr 4) true (Addr 5) ctx_grad_long w0 = (Ok true, w')
     /\ w_heap w' !! 5%nat = Some (double_bytes [one; one])
     /\ w_heap w' !! 11%nat = Some (double_bytes [one; one; one])
     /\ w_trace w' = [CallEvalGradF (ArrayDouble (Addr 4) 2)])
  /\
  (exists w',
     eval_grad_f_cb 2 (Addr 4) true (Addr 5) ctx_grad_short w0 = (Undefined, w')
     /\ w_heap w' !! 11%nat = Some (double_bytes [one])
     /\ size_t_mul sizeof_double (ctx_n ctx_grad_short) = 16
     /\ Z.of_nat (length (double_bytes [one])) = 8).
Proof.
  split; eexists; repeat split; vm_compute; reflexivity.
Qed.

(** The constraint callback has the same gap. *)
Example eval_g_cb_wrong_length_not_rejected :
  fst (eval_g_cb 2 (Addr 4) true 1 (Addr 6)
         (MkContext 2 1 2 1 l u gl gu f grad_f grad_f jac_g hess (Problem 0)) w0)
  = Ok true.
Proof. vm_compute. reflexivity. Qed.

(** The Jacobian callback, for comparison, reports a structure of the wrong
    length as a failure and leaves the index buffers alone. *)
Example eval_jac_g_cb_rejects :
  exists w',
    eval_jac_g_cb 2 NULL true 1 3 (Addr 9) (Addr 10) NULL ctx w0 = (Ok false, w')
    /\ w_heap w' !! 9%nat = Some (zeros 8)
    /\ w_heap w' !! 10%nat = Some (zeros 8).
Proof. eexists. repeat split; vm_compute; reflexivity. Qed.

(** C3 on the small problem: the construction succeeds after one structure
    query of each callback, and with the ragged Jacobian it raises before any
    native call. *)
Lemma init_structure_queries_witness :
  (exists self w',
     __init__ 2 1 l u gl gu f g grad_f jac_g hess w0 = (Ok self, w')
     /\ ctx_nnzj self = 2 /\ ctx_nnzh self = 1
     /\ exists args,
          w_trace w' = [CallEvalJacG None true; CallEvalH None None None true;
                        NativeCreate args])
  /\
  (exists e w',
     __init__ 2 1 l u gl gu f g grad_f jac_g_ragged hess w0 = (Raise e, w')
     /\ w_native w' = 0%nat).
Proof.
  split.
  - destruct (__init__ 2 1 l u gl gu f g grad_f jac_g hess w0)
      as [[self | e |] w'] eqn:E; [| vm_compute in E; discriminate ..].
    exists self, w'. split; [reflexivity |].
    destruct (proj1 (init_structure_queries 2 1 l u gl gu f g grad_f jac_g hess w0)
                    self w' E) as (_ & HJ & _ & HH & Ht).
    auto.
  - destruct (proj2 (init_structure_queries 2 1 l u gl gu f g grad_f
                                            jac_g_ragged hess w0))
      as (e & w' & evs & E & _ & _ & _ & Hn).
    + left. cbn. lia.
    + exists e, w'. auto.
Defined.

(** C6 on the small problem. *)
Lemma solve_result_shape_witness :
  exists w',
    solve ctx x0 w0 =
    (Ok [("status", PyInt 0); ("x", PyArray x0); ("lam", PyArray (vec 1 11));
         ("pi", PyArray (vec 2 12)); ("mu", PyArray (vec 2 13))], w').
Proof.
  eexists.
  refine (proj1 (solve_result_shape ctx x0 w0 _ _ _ _));
    first [reflexivity | cbn; lia].
Defined.

(** C7 does not hold: the array returned under [x] is the caller's
    starting point itself, and the buffer of the caller holds what the
    driver wrote. *)
Lemma solve_returns_the_callers_array :
  exists r w',
    solve ctx x0 w0 = (Ok r, w')
    /\ dict_get "x" r = Some (PyArray x0)
    /\ ~ (forall a, dict_get "x" r = Some (PyArray a) -> nd_data a <> nd_data x0)
    /\ nd_data x0 = Addr 4
    /\ w_heap w0 !! 4%nat = Some (zeros 16)
    /\ w_heap w' !! 4%nat = Some (le_bytes 8 one ++ zeros 8).
Proof.
  do 2 eexists. split; [vm_compute; reflexivity |].
  split; [reflexivity |]. split.
  - intros H. exact (H x0 eq_refl eq_refl).
  - repeat split.
Qed.

(** C7, as amended, on the small problem. *)
Lemma solve_outputs_fresh_x_shared_witness :
  exists r w' nlam npi nmu,
    solve ctx x0 w0 = (Ok r, w')
    /\ dict_get "x" r = Some (PyArray x0)
    /\ dict_get "lam" r = Some (PyArray nlam)
    /\ dict_get "pi" r = Some (PyArray npi)
    /\ dict_get "mu" r = Some (PyArray nmu)
    /\ nd_data nlam <> nd_data npi /\ nd_data nlam <> nd_data nmu
    /\ nd_data npi <> nd_data nmu.
Proof.
  destruct (solve ctx x0 w0) as [[r | e |] w'] eqn:E;
    [| vm_compute in E; discriminate ..].
  destruct (solve_outputs_fresh_x_shared ctx x0 w0 r w' E)
    as (status & nlam & npi & nmu & kl & kp & km & w1 & -> & El & Ep & Em
        & _ & _ & _ & Hlp & Hlm & Hpm & _).
  eexists. exists w', nlam, npi, nmu. rewrite El, Ep, Em.
  repeat split; try reflexivity; congruence.
Defined.

(** C8 does not hold: a lower-bound array of one double is accepted for a
    problem of two variables, and the native problem is created on it. *)
Lemma init_accepts_a_short_bound_array :
  nd_size l_short = 1
  /\ nd_size l_short <> 2
  /\ exists self w',
       __init__ 2 1 l_short u gl gu f g grad_f jac_g hess w0 = (Ok self, w')
       /\ ctx_n self = 2
       /\ ctx_problem self = Problem 0
       /\ w_native w' = 1%nat
       /\ last (w_trace w') =
          Some (NativeCreate (CreateArgs 2 (Addr 7) (Addr 1) 1 (Addr 2) (Addr 3) 2 1 0)).
Proof.
  split; [reflexivity |]. split; [discriminate |].
  do 2 eexists. split; [vm_compute; reflexivity |]. repeat split.
Qed.

(** C8, as amended, on the small problem: single-precision lower bounds are
    refused, and the conforming bounds are passed on by address. *)
Lemma init_bound_buffers_witness :
  (exists e w',
     __init__ 2 1 l_float u gl gu f g grad_f jac_g hess w0 = (Raise e, w')
     /\ w_native w' = 0%nat)
  /\
  (exists self w' args,
     __init__ 2 1 l u gl gu f g grad_f jac_g hess w0 = (Ok self, w')
     /\ last (w_trace w') = Some (NativeCreate args)
     /\ ca_x_L args = nd_data l /\ ca_x_U args = nd_data u
     /\ ca_g_L args = nd_data gl /\ ca_g_U args = nd_data gu).
Proof.
  split.
  - destruct (proj1 (init_bound_buffers 2 1 l_float u gl gu f g grad_f jac_g hess w0))
      as (e & w' & evs & E & _ & _ & Hn); [reflexivity |].
    exists e, w'. auto.
  - do 3 eexists. split.
    + refine (proj2 (init_bound_buffers 2 1 l u gl gu f g grad_f jac_g hess w0)
                    _ _ _ _ _ _ _); reflexivity.
    + repeat split.
Defined.

(** C9 on the small problem: a starting point of three doubles is accepted
    by the context of two variables. *)
Lemma solve_accepts_any_length_witness :
  nd_size x0_long <> ctx_n ctx
  /\ exists r w', solve ctx x0_long w0 = (Ok r, w')
                  /\ dict_get "x" r = Some (PyArray x0_long).
Proof.
  split; [discriminate |].
  destruct (solve_accepts_any_length ctx x0_long w0)
    as (r & w' & status & args & w1 & E & _ & Hx & _);
    [reflexivity | cbn; lia | cbn; lia |].
  exists r, w'. auto.
Defined.

(** C4 does not hold: the integer [2^31] is not handed to the integer
    setter, nor to any other; [add_option] raises [OverflowError] and the
    world is as it was. *)
Lemma add_option_int_out_of_range :
  isinstance (PyInt (2 ^ 31)) py_int = true
  /\ add_option ctx "max_iter" (PyInt (2 ^ 31)) w0 = (Raise OverflowError, w0)
  /\ w_trace (snd (add_option ctx "max_iter" (PyInt (2 ^ 31)) w0)) = [].
Proof. repeat split. Qed.

(** C10 does not hold: when the objective function raises, [eval_f_cb]
    returns false, and the slot of the objective value holds what it held. *)
Lemma eval_f_cb_false_when_eval_f_raises :
  exists w',
    eval_f_cb 2 (Addr 4) true (Addr 6) DemoMore.ctx_f_raises w0 = (Ok false, w')
    /\ fst (eval_f_cb 2 (Addr 4) true (Addr 6) DemoMore.ctx_f_raises w0) <> Ok true
    /\ w_heap w0 !! 6%nat = Some (zeros 8)
    /\ w_heap w' !! 6%nat = Some (zeros 8)
    /\ w_trace w' = [CallEvalF (ArrayDouble (Addr 4) 2)].
Proof.
  eexists. split; [vm_compute; reflexivity |].
  split; [vm_compute; discriminate |]. repeat split.
Qed.

(** C10, as amended, on the small problem: an objective function that
    returns, and one that raises. *)
Lemma eval_f_cb_true_unless_eval_f_raises_witness :
  (exists w',
     eval_f_cb 2 (Addr 4) true (Addr 6) ctx w0 = (Ok true, w')
     /\ w_heap w' !! 6%nat = Some (le_bytes 8 one))
  /\ (exists w',
        eval_f_cb 2 (Addr 4) true (Addr 6) DemoMore.ctx_f_raises w0 = (Ok false, w')
        /\ w_heap w' !! 6%nat = Some (zeros 8)).
Proof.
  split; eexists; split.
  - refine (proj2 (proj1 (proj2 (eval_f_cb_true_unless_eval_f_raises
                                   2 (Addr 4) true (Addr 6) ctx w0))
                         one eq_refl)
                  6%nat (zeros 8) eq_refl eq_refl _).
    vm_compute. discriminate.
  - reflexivity.
  - refine (proj2 (proj2 (eval_f_cb_true_unless_eval_f_raises
                            2 (Addr 4) true (Addr 6) DemoMore.ctx_f_raises w0))
                  _ eq_refl).
  - reflexivity.
Defined.

End Runs.

(** * Further properties of the adapter *)

Section Copies.

Context {U N : Type} `{!cipopt U N}.

Abbreviation M := (M U N).

(** ** What a callback copies *)

Lemma memcpy_Ok d s count db sb (w : world U N) :
  w_heap w !! d = Some db -> w_heap w !! s = Some sb -> d <> s ->
  count <= Z.of_nat (length sb) -> count <= Z.of_nat (length db) ->
  memcpy (Addr d) (Addr s) count w =
  (Ok tt,
   set_heap (<[d := take (Z.to_nat count) sb ++ drop (Z.to_nat count) db]>
               (w_heap w)) w).
Proof.
  intros Hd Hs Hne Hsb Hdb. unfold memcpy. rewrite Hd, Hs.
  rewrite bool_decide_eq_true_2 by assumption.
  apply Z.leb_le in Hsb, Hdb. rewrite Hsb, Hdb. reflexivity.
Qed.

Lemma memcpy_past_source dst s count sb (w : world U N) :
  w_heap w !! s = Some sb -> Z.of_nat (length sb) < count ->
  memcpy dst (Addr s) count w = (Undefined, w).
Proof.
  intros Hs Hlt. unfold memcpy. destruct dst as [| d]; [reflexivity |].
  destruct (w_heap w !! d) as [db |]; [| reflexivity]. rewrite Hs.
  apply Z.leb_gt in Hlt. rewrite Hlt, andb_false_r. reflexivity.
Qed.

(** A count of C ints or doubles that is not negative does not wrap. *)
Lemma size_t_mul_fits s k :
  0 <= s <= 8 -> 0 <= k -> fits_c_int k = true -> size_t_mul s k = s * k.
Proof.
  intros Hs Hk Hfit. unfold fits_c_int in Hfit.
  apply andb_prop in Hfit as [_ Hhi]. apply Z.ltb_lt in Hhi.
  unfold size_t_mul. apply Z.mod_small. nia.
Qed.

Lemma double_bytes_cons d v : double_bytes (d :: v) = le_bytes 8 d ++ double_bytes v.
Proof. reflexivity. Qed.

(** The first [8 * k] bytes of an array of doubles are its first [k]
    doubles. *)
Lemma take_double_bytes k v :
  take (8 * k) (double_bytes v) = double_bytes (take k v).
Proof.
  revert k. induction v as [| d v IH]; intros k.
  - rewrite take_nil. change (double_bytes []) with (@nil Z). apply take_nil.
  - destruct k as [| k]; [reflexivity |].
    replace (8 * S k)%nat with (8 + 8 * k)%nat by lia.
    cbn [take]. rewrite !double_bytes_cons.
    rewrite take_app_add' by (symmetry; apply length_le_bytes). now rewrite IH.
Qed.

(** The copy out of a new array of doubles, as the gradient and the
    constraint callbacks do it. *)
Lemma copy_out_of_new_array (k : Z) dst v h (u : U) (s : N) t :
  let w1 := World (h ++ [double_bytes v]) u s t in
  fits_c_int k = true ->
  (forall a db,
     dst = Addr a -> h !! a = Some db ->
     0 <= k <= Z.of_nat (length v) ->
     sizeof_double * k <= Z.of_nat (length db) ->
     memcpy dst (Addr (length h)) (size_t_mul sizeof_double k) w1 =
     (Ok tt,
      set_heap (<[a := double_bytes (take (Z.to_nat k) v)
                       ++ drop (Z.to_nat (sizeof_double * k)) db]> (w_heap w1)) w1))
  /\ (Z.of_nat (length v) < k ->
      memcpy dst (Addr (length h)) (size_t_mul sizeof_double k) w1 = (Undefined, w1)).
Proof.
  intros w1 Hfit.
  assert (Hsrc : w_heap w1 !! length h = Some (double_bytes v)).
  { subst w1. cbn. now rewrite lookup_app_r, Nat.sub_diag by lia. }
  split.
  - intros a db -> Ha [Hk Hv] Hroom.
    pose proof (lookup_lt_Some _ _ _ Ha) as Hlt.
    rewrite (size_t_mul_fits sizeof_double k) by (unfold sizeof_double; auto; lia).
    rewrite (memcpy_Ok a (length h) _ db (double_bytes v)); auto; try lia.
    + unfold sizeof_double.
      replace (Z.to_nat (8 * k)) with (8 * Z.to_nat k)%nat by lia.
      now rewrite take_double_bytes.
    + subst w1. cbn. now rewrite lookup_app_l.
    + rewrite length_double_bytes. unfold sizeof_double in *. lia.
  - intros Hshort. apply (memcpy_past_source _ _ _ (double_bytes v)); [exact Hsrc |].
    rewrite (size_t_mul_fits sizeof_double k) by (unfold sizeof_double; auto; lia).
    rewrite length_double_bytes. unfold sizeof_double. lia.
Qed.

(** X1: [eval_grad_f_cb] copies the first [c.n] doubles of the array the
    caller's gradient function returns, whatever the length of that array:
    when the array has at least [c.n] entries (and the buffer of the solver
    has room for [c.n] doubles) the call returns true with exactly those
    entries in the buffer; when it has fewer, the copy reads past the end of
    the array, and the call has no defined result. *)
Theorem eval_grad_f_cb_copies_n_entries n x new_x grad_f
    (c : IpoptContext U) (w : world U N) :
  let view := ArrayDouble x (ctx_n c) in
  let v := fst (eval_grad_f c view (w_heap w) (w_user w)) in
  let u' := snd (eval_grad_f c view (w_heap w) (w_user w)) in
  let w1 :=
    World (w_heap w ++ [double_bytes v]) u' (w_native w)
          (w_trace w ++ [CallEvalGradF view]) in
  fits_c_int (ctx_n c) = true ->
  (forall a db,
     grad_f = Addr a -> w_heap w !! a = Some db ->
     0 <= ctx_n c <= Z.of_nat (length v) ->
     sizeof_double * ctx_n c <= Z.of_nat (length db) ->
     eval_grad_f_cb n x new_x grad_f c w =
     (Ok true,
      set_heap (<[a := double_bytes (take (Z.to_nat (ctx_n c)) v)
                       ++ drop (Z.to_nat (sizeof_double * ctx_n c)) db]>
                  (w_heap w1)) w1))
  /\ (Z.of_nat (length v) < ctx_n c ->
      eval_grad_f_cb n x new_x grad_f c w = (Undefined, w1)).
Proof.
  intros view v u' w1 Hfit. subst view v u' w1.
  unfold eval_grad_f_cb. unfold_adapter. cbn.
  destruct (eval_grad_f c _ _ _) as [v u']. cbn.
  destruct (copy_out_of_new_array (ctx_n c) grad_f v (w_heap w) u' (w_native w)
              (w_trace w ++ [CallEvalGradF (ArrayDouble x (ctx_n c))]) Hfit)
    as [Hok Hshort].
  split.
  - intros a db Hg Ha Hn Hroom. now rewrite (Hok a db Hg Ha Hn Hroom).
  - intros Hlt. now rewrite (Hshort Hlt).
Qed.

(** X2: [eval_g_cb] copies the first [c.m] doubles of the array the caller's
    constraint function returns, in the same way: true with exactly those
    entries when the array has at least [c.m] of them, no defined result when
    it has fewer. *)
Theorem eval_g_cb_copies_m_entries n x new_x m g
    (c : IpoptContext U) (w : world U N) :
  let view := ArrayDouble x (ctx_n c) in
  let v := fst (eval_g c view (w_heap w) (w_user w)) in
  let u' := snd (eval_g c view (w_heap w) (w_user w)) in
  let w1 :=
    World (w_heap w ++ [double_bytes v]) u' (w_native w)
          (w_trace w ++ [CallEvalG view]) in
  fits_c_int (ctx_m c) = true ->
  (forall a db,
     g = Addr a -> w_heap w !! a = Some db ->
     0 <= ctx_m c <= Z.of_nat (length v) ->
     sizeof_double * ctx_m c <= Z.of_nat (length db) ->
     eval_g_cb n x new_x m g c w =
     (Ok true,
      set_heap (<[a := double_bytes (take (Z.to_nat (ctx_m c)) v)
                       ++ drop (Z.to_nat (sizeof_double * ctx_m c)) db]>
                  (w_heap w1)) w1))
  /\ (Z.of_nat (length v) < ctx_m c ->
      eval_g_cb n x new_x m g c w = (Undefined, w1)).
Proof.
  intros view v u' w1 Hfit. subst view v u' w1.
  unfold eval_g_cb. unfold_adapter. cbn.
  destruct (eval_g c _ _ _) as [v u']. cbn.
  destruct (copy_out_of_new_array (ctx_m c) g v (w_heap w) u' (w_native w)
              (w_trace w ++ [CallEvalG (ArrayDouble x (ctx_n c))]) Hfit)
    as [Hok Hshort].
  split.
  - intros a db Hg Ha Hn Hroom. now rewrite (Hok a db Hg Ha Hn Hroom).
  - intros Hlt. now rewrite (Hshort Hlt).
Qed.

(** The two copies of a structure query. *)
Lemma copy_structure cnt ar ac sr sc dr dc rb cb (w1 : world U N) :
  w_heap w1 !! ar = Some dr -> w_heap w1 !! ac = Some dc ->
  w_heap w1 !! sr = Some rb -> w_heap w1 !! sc = Some cb ->
  ar <> ac -> ar <> sr -> ar <> sc -> ac <> sc ->
  cnt = Z.of_nat (length rb) -> cnt = Z.of_nat (length cb) ->
  cnt <= Z.of_nat (length dr) -> cnt <= Z.of_nat (length dc) ->
  bind (memcpy (Addr ar) (Addr sr) cnt)
       (fun _ => bind (memcpy (Addr ac) (Addr sc) cnt) (fun _ => ret true)) w1 =
  (Ok true,
   set_heap (<[ac := cb ++ drop (length cb) dc]>
               (<[ar := rb ++ drop (length rb) dr]> (w_heap w1))) w1).
Proof.
  intros Har Hac Hsr Hsc N1 N2 N3 N4 Crb Ccb Rr Rc.
  rewrite (bind_Ok _ _ _ _ _ (memcpy_Ok ar sr cnt dr rb w1 Har Hsr N2
                                ltac:(lia) Rr)).
  set (w2 := set_heap _ w1).
  assert (Hac2 : w_heap w2 !! ac = Some dc).
  { subst w2. cbn. now rewrite list_lookup_insert_ne. }
  assert (Hsc2 : w_heap w2 !! sc = Some cb).
  { subst w2. cbn. now rewrite list_lookup_insert_ne. }
  rewrite (bind_Ok _ _ _ _ _ (memcpy_Ok ac sc cnt dc cb w2 Hac2 Hsc2 N4
                                ltac:(lia) Rc)).
  subst w2. unfold ret, set_heap. cbn.
  assert (Hl : length rb = length cb) by lia.
  subst cnt. rewrite Nat2Z.id, firstn_all, Hl, firstn_all.
  reflexivity.
Qed.

Lemma py_eval_jac_g_structure (c : IpoptContext U) (w : world U N) :
  let J := eval_jac_g c None true (w_heap w) (w_user w) in
  let rows : list Z := fst (fst J) in
  let cols : list Z := snd (fst J) in
  py_eval_jac_g c None true w =
  (Ok (NdArray NPY_INT [Z.of_nat (length rows)] true true (Addr (length (w_heap w))),
       NdArray NPY_INT [Z.of_nat (length cols)] true true
               (Addr (S (length (w_heap w))))),
   World (w_heap w ++ [int_bytes rows; int_bytes cols]) (snd J) (w_native w)
         (w_trace w ++ [CallEvalJacG None true])).
Proof.
  cbn zeta. unfold_adapter. cbn.
  destruct (eval_jac_g c None true _ _) as [[rows cols] u']. cbn.
  rewrite length_app, <- app_assoc. cbn.
  now replace (length (w_heap w) + 1)%nat with (S (length (w_heap w))) by lia.
Qed.

Lemma py_eval_h_structure (c : IpoptContext U) (w : world U N) :
  let H := eval_h c None None None true (w_heap w) (w_user w) in
  let rows : list Z := fst (fst H) in
  let cols : list Z := snd (fst H) in
  py_eval_h c None None None true w =
  (Ok (NdArray NPY_INT [Z.of_nat (length rows)] true true (Addr (length (w_heap w))),
       NdArray NPY_INT [Z.of_nat (length cols)] true true
               (Addr (S (length (w_heap w))))),
   World (w_heap w ++ [int_bytes rows; int_bytes cols]) (snd H) (w_native w)
         (w_trace w ++ [CallEvalH None None None true])).
Proof.
  cbn zeta. unfold_adapter. cbn.
  destruct (eval_h c None None None true _ _) as [[rows cols] u']. cbn.
  rewrite length_app, <- app_assoc. cbn.
  now replace (length (w_heap w) + 1)%nat with (S (length (w_heap w))) by lia.
Qed.

(** The body of a structure query, after the call of the caller's
    function. *)
Lemma structure_body nele iRow jCol rows cols h (u : U) (s : N) t :
  let w1 := World (h ++ [int_bytes rows; int_bytes cols]) u s t in
  let body :=
    (if negb (Z.of_nat (length rows) =? nele) || negb (Z.of_nat (length cols) =? nele)
     then ret false
     else
       run memcpy iRow (Addr (length h)) (size_t_mul sizeof_int nele);
       run memcpy jCol (Addr (S (length h))) (size_t_mul sizeof_int nele);
       ret true) : M bool in
  (Z.of_nat (length rows) <> nele \/ Z.of_nat (length cols) <> nele ->
   body w1 = (Ok false, w1))
  /\
  (forall ar ac dr dc,
     iRow = Addr ar -> jCol = Addr ac -> ar <> ac ->
     h !! ar = Some dr -> h !! ac = Some dc ->
     Z.of_nat (length rows) = nele -> Z.of_nat (length cols) = nele ->
     fits_c_int nele = true ->
     sizeof_int * nele <= Z.of_nat (length dr) ->
     sizeof_int * nele <= Z.of_nat (length dc) ->
     body w1 =
     (Ok true,
      set_heap (<[ac := int_bytes cols ++ drop (length (int_bytes cols)) dc]>
                  (<[ar := int_bytes rows ++ drop (length (int_bytes rows)) dr]>
                     (w_heap w1))) w1)).
Proof.
  intros w1 body. subst body. split.
  - intros Hne.
    assert ((negb (Z.of_nat (length rows) =? nele)
             || negb (Z.of_nat (length cols) =? nele)) = true) as ->.
    { apply orb_true_iff. rewrite !negb_true_iff, !Z.eqb_neq. exact Hne. }
    reflexivity.
  - intros ar ac dr dc -> -> Hne Har Hac Hr Hc Hfit Rr Rc.
    apply Z.eqb_eq in Hr, Hc. rewrite Hr, Hc. cbn [negb orb].
    apply Z.eqb_eq in Hr, Hc.
    pose proof (lookup_lt_Some _ _ _ Har) as Lr.
    pose proof (lookup_lt_Some _ _ _ Hac) as Lc.
    rewrite (size_t_mul_fits sizeof_int nele)
      by (unfold sizeof_int; first [assumption | lia]).
    apply copy_structure; subst w1; cbn [w_heap]; try lia.
    + now rewrite lookup_app_l.
    + now rewrite lookup_app_l.
    + now rewrite lookup_app_r, Nat.sub_diag by lia.
    + rewrite lookup_app_r by lia.
      now replace (S (length h) - length h)%nat with 1%nat by lia.
    + rewrite length_int_bytes. lia.
    + rewrite length_int_bytes. lia.
Qed.

(** The body of a value query, after the call of the caller's function. *)
Lemma values_body nele values data h (u : U) (s : N) t :
  let w1 := World (h ++ [double_bytes data]) u s t in
  let body :=
    (if negb (Z.of_nat (length data) =? nele)
     then ret false
     else
       run memcpy values (Addr (length h)) (size_t_mul sizeof_double nele);
       ret true) : M bool in
  (Z.of_nat (length data) <> nele -> body w1 = (Ok false, w1))
  /\
  (forall a db,
     values = Addr a -> h !! a = Some db ->
     Z.of_nat (length data) = nele -> fits_c_int nele = true ->
     sizeof_double * nele <= Z.of_nat (length db) ->
     body w1 =
     (Ok true,
      set_heap (<[a := double_bytes data
                       ++ drop (Z.to_nat (sizeof_double * nele)) db]>
                  (w_heap w1)) w1)).
Proof.
  intros w1 body. subst body. split.
  - intros Hne. apply Z.eqb_neq in Hne. now rewrite Hne.
  - intros a db Hv Ha Hlen Hfit Hroom.
    apply Z.eqb_eq in Hlen. rewrite Hlen. cbn [negb]. apply Z.eqb_eq in Hlen.
    destruct (copy_out_of_new_array nele values data h u s t Hfit) as [Hok _].
    rewrite (bind_Ok _ _ _ _ _ (Hok a db Hv Ha ltac:(lia) Hroom)).
    unfold ret. rewrite <- Hlen, Nat2Z.id, firstn_all. reflexivity.
Qed.

Lemma py_eval_jac_g_values (c : IpoptContext U) view (w : world U N) :
  let ans := eval_jac_g c (Some view) false (w_heap w) (w_user w) in
  let data : list double := fst ans in
  py_eval_jac_g c (Some view) false w =
  (Ok (NdArray NPY_DOUBLE [Z.of_nat (length data)] true true
               (Addr (length (w_heap w)))),
   World (w_heap w ++ [double_bytes data]) (snd ans) (w_native w)
         (w_trace w ++ [CallEvalJacG (Some view) false])).
Proof.
  cbn zeta. unfold_adapter. cbn.
  destruct (eval_jac_g c _ false _ _) as [data u']. reflexivity.
Qed.

Lemma py_eval_h_values (c : IpoptContext U) view lamview obj_factor (w : world U N) :
  let ans := eval_h c (Some view) (Some lamview) (Some obj_factor) false
                    (w_heap w) (w_user w) in
  let data : list double := fst ans in
  py_eval_h c (Some view) (Some lamview) (Some obj_factor) false w =
  (Ok (NdArray NPY_DOUBLE [Z.of_nat (length data)] true true
               (Addr (length (w_heap w)))),
   World (w_heap w ++ [double_bytes data]) (snd ans) (w_native w)
         (w_trace w ++ [CallEvalH (Some view) (Some lamview) (Some obj_factor) false])).
Proof.
  cbn zeta. unfold_adapter. cbn.
  destruct (eval_h c _ _ _ false _ _) as [data u']. reflexivity.
Qed.

Ltac enter_mode E :=
  match goal with
  | |- context [bool_decide (?x = NULL) && bool_decide (?r <> NULL)
                && bool_decide (?c <> NULL)] =>
    destruct (bool_decide (x = NULL) && bool_decide (r <> NULL)
              && bool_decide (c <> NULL)) eqn:E;
    rewrite ?andb_true_iff, ?andb_false_iff, ?bool_decide_eq_true,
      ?bool_decide_eq_false in E
  end.

Ltac array_fields :=
  unfold nd_size; cbn [nd_shape nd_data foldr]; rewrite ?Z.mul_1_r.

(** X3: a value query of the Jacobian callback (any call that is not a
    structure query).  The caller's function is called on the view of [x]
    with the flag cleared; an answer that has not [nele_jac] entries makes
    the callback return false with the buffer [values] untouched; an answer of
    [nele_jac] entries is copied whole into [values], and the callback
    returns true. *)
Theorem eval_jac_g_cb_value_query n x new_x m nele_jac iRow jCol values
    (c : IpoptContext U) (w : world U N) :
  let view := ArrayDouble x (ctx_n c) in
  let ans := eval_jac_g c (Some view) false (w_heap w) (w_user w) in
  let data : list double := fst ans in
  let w1 :=
    World (w_heap w ++ [double_bytes data]) (snd ans) (w_native w)
          (w_trace w ++ [CallEvalJacG (Some view) false]) in
  ~ (x = NULL /\ iRow <> NULL /\ jCol <> NULL) ->
  (Z.of_nat (length data) <> nele_jac ->
   eval_jac_g_cb n x new_x m nele_jac iRow jCol values c w = (Ok false, w1))
  /\
  (forall a db,
     values = Addr a -> w_heap w !! a = Some db ->
     Z.of_nat (length data) = nele_jac -> fits_c_int nele_jac = true ->
     sizeof_double * nele_jac <= Z.of_nat (length db) ->
     eval_jac_g_cb n x new_x m nele_jac iRow jCol values c w =
     (Ok true,
      set_heap (<[a := double_bytes data
                       ++ drop (Z.to_nat (sizeof_double * nele_jac)) db]>
                  (w_heap w1)) w1)).
Proof.
  intros view ans data w1 Hmode. unfold eval_jac_g_cb.
  enter_mode E; [tauto |].
  rewrite (bind_Ok _ _ _ _ _ (py_eval_jac_g_values c view w)).
  fold ans data w1. array_fields.
  exact (values_body nele_jac values data (w_heap w) (snd ans) (w_native w)
           (w_trace w ++ [CallEvalJacG (Some view) false])).
Qed.

(** X4: a structure query of the Jacobian callback ([x] null, both index
    pointers not null).  The caller's function is called without a point and
    with the flag set; when its row or its column array has not [nele_jac]
    entries the callback returns false with the index buffers untouched; when
    both have, the rows are copied whole into [iRow] and the columns into
    [jCol], and the callback returns true. *)
Theorem eval_jac_g_cb_structure_query n new_x m nele_jac iRow jCol values
    (c : IpoptContext U) (w : world U N) :
  let J := eval_jac_g c None true (w_heap w) (w_user w) in
  let rows : list Z := fst (fst J) in
  let cols : list Z := snd (fst J) in
  let w1 :=
    World (w_heap w ++ [int_bytes rows; int_bytes cols]) (snd J) (w_native w)
          (w_trace w ++ [CallEvalJacG None true]) in
  iRow <> NULL -> jCol <> NULL ->
  (Z.of_nat (length rows) <> nele_jac \/ Z.of_nat (length cols) <> nele_jac ->
   eval_jac_g_cb n NULL new_x m nele_jac iRow jCol values c w = (Ok false, w1))
  /\
  (forall ar ac dr dc,
     iRow = Addr ar -> jCol = Addr ac -> ar <> ac ->
     w_heap w !! ar = Some dr -> w_heap w !! ac = Some dc ->
     Z.of_nat (length rows) = nele_jac -> Z.of_nat (length cols) = nele_jac ->
     fits_c_int nele_jac = true ->
     sizeof_int * nele_jac <= Z.of_nat (length dr) ->
     sizeof_int * nele_jac <= Z.of_nat (length dc) ->
     eval_jac_g_cb n NULL new_x m nele_jac iRow jCol values c w =
     (Ok true,
      set_heap (<[ac := int_bytes cols ++ drop (length (int_bytes cols)) dc]>
                  (<[ar := int_bytes rows ++ drop (length (int_bytes rows)) dr]>
                     (w_heap w1))) w1)).
Proof.
  intros J rows cols w1 Hr Hc. unfold eval_jac_g_cb.
  enter_mode E; [| exfalso; tauto].
  rewrite (bind_Ok _ _ _ _ _ (py_eval_jac_g_structure c w)).
  fold J rows cols w1. array_fields.
  exact (structure_body nele_jac iRow jCol rows cols (w_heap w) (snd J)
           (w_native w) (w_trace w ++ [CallEvalJacG None true])).
Qed.

(** X5: a value query of the Hessian callback, as for the Jacobian: the
    caller's function is called on the views of [x] and [lam] and on
    [obj_factor] with the flag cleared; an answer that has not [nele_hess]
    entries gives false and leaves [values] untouched, an answer of
    [nele_hess] entries is copied whole into [values] and gives true. *)
Theorem eval_h_cb_value_query n x new_x obj_factor m lam new_lam nele_hess
    iRow jCol values (c : IpoptContext U) (w : world U N) :
  let view := ArrayDouble x (ctx_n c) in
  let lamview := ArrayDouble lam (ctx_m c) in
  let ans := eval_h c (Some view) (Some lamview) (Some obj_factor) false
                    (w_heap w) (w_user w) in
  let data : list double := fst ans in
  let w1 :=
    World (w_heap w ++ [double_bytes data]) (snd ans) (w_native w)
          (w_trace w ++ [CallEvalH (Some view) (Some lamview) (Some obj_factor) false]) in
  ~ (x = NULL /\ iRow <> NULL /\ jCol <> NULL) ->
  (Z.of_nat (length data) <> nele_hess ->
   eval_h_cb n x new_x obj_factor m lam new_lam nele_hess iRow jCol values c w
   = (Ok false, w1))
  /\
  (forall a db,
     values = Addr a -> w_heap w !! a = Some db ->
     Z.of_nat (length data) = nele_hess -> fits_c_int nele_hess = true ->
     sizeof_double * nele_hess <= Z.of_nat (length db) ->
     eval_h_cb n x new_x obj_factor m lam new_lam nele_hess iRow jCol values c w
     = (Ok true,
        set_heap (<[a := double_bytes data
                         ++ drop (Z.to_nat (sizeof_double * nele_hess)) db]>
                    (w_heap w1)) w1)).
Proof.
  intros view lamview ans data w1 Hmode. unfold eval_h_cb.
  enter_mode E; [tauto |].
  rewrite (bind_Ok _ _ _ _ _ (py_eval_h_values c view lamview obj_factor w)).
  fold ans data w1. array_fields.
  exact (values_body nele_hess values data (w_heap w) (snd ans) (w_native w)
           (w_trace w ++ [CallEvalH (Some view) (Some lamview)
                                    (Some obj_factor) false])).
Qed.

(** X6: a structure query of the Hessian callback, as for the Jacobian: the
    caller's function is called with no argument but the flag; row or column
    arrays that have not [nele_hess] entries give false and leave the index
    buffers untouched; otherwise rows and columns are copied whole into
    [iRow] and [jCol], and the callback returns true. *)
Theorem eval_h_cb_structure_query n new_x obj_factor m lam new_lam nele_hess
    iRow jCol values (c : IpoptContext U) (w : world U N) :
  let H := eval_h c None None None true (w_heap w) (w_user w) in
  let rows : list Z := fst (fst H) in
  let cols : list Z := snd (fst H) in
  let w1 :=
    World (w_heap w ++ [int_bytes rows; int_bytes cols]) (snd H) (w_native w)
          (w_trace w ++ [CallEvalH None None None true]) in
  iRow <> NULL -> jCol <> NULL ->
  (Z.of_nat (length rows) <> nele_hess \/ Z.of_nat (length cols) <> nele_hess ->
   eval_h_cb n NULL new_x obj_factor m lam new_lam nele_hess iRow jCol values c w
   = (Ok false, w1))
  /\
  (forall ar ac dr dc,
     iRow = Addr ar -> jCol = Addr ac -> ar <> ac ->
     w_heap w !! ar = Some dr -> w_heap w !! ac = Some dc ->
     Z.of_nat (length rows) = nele_hess -> Z.of_nat (length cols) = nele_hess ->
     fits_c_int nele_hess = true ->
     sizeof_int * nele_hess <= Z.of_nat (length dr) ->
     sizeof_int * nele_hess <= Z.of_nat (length dc) ->
     eval_h_cb n NULL new_x obj_factor m lam new_lam nele_hess iRow jCol values c w
     = (Ok true,
        set_heap (<[ac := int_bytes cols ++ drop (length (int_bytes cols)) dc]>
                    (<[ar := int_bytes rows ++ drop (length (int_bytes rows)) dr]>
                       (w_heap w1))) w1)).
Proof.
  intros H rows cols w1 Hr Hc. unfold eval_h_cb.
  enter_mode E; [| exfalso; tauto].
  rewrite (bind_Ok _ _ _ _ _ (py_eval_h_structure c w)).
  fold H rows cols w1. array_fields.
  exact (structure_body nele_hess iRow jCol rows cols (w_heap w) (snd H)
           (w_native w) (w_trace w ++ [CallEvalH None None None true])).
Qed.

End Copies.

Section Lifecycle.

Context {U N : Type} `{!cipopt U N}.

Abbreviation M := (M U N).

(** ** The calls of the three simple callbacks *)

(** X8: each call of [eval_f_cb], [eval_grad_f_cb] and [eval_g_cb] calls the
    caller's function exactly once, on a view of [x] with [c.n] entries (the
    [n] the solver passes is not used), and leaves the caller's program in
    the state that call produced, whether or not the copy that follows is
    defined. *)
Theorem simple_callbacks_call_once n x new_x obj_value grad_f m g
    (c : IpoptContext U) (w : world U N) :
  let view := ArrayDouble x (ctx_n c) in
  (let w' := snd (eval_f_cb n x new_x obj_value c w) in
   w_trace w' = w_trace w ++ [CallEvalF view]
   /\ w_user w' = snd (eval_f c view (w_heap w) (w_user w)))
  /\
  (let w' := snd (eval_grad_f_cb n x new_x grad_f c w) in
   w_trace w' = w_trace w ++ [CallEvalGradF view]
   /\ w_user w' = snd (eval_grad_f c view (w_heap w) (w_user w)))
  /\
  (let w' := snd (eval_g_cb n x new_x m g c w) in
   w_trace w' = w_trace w ++ [CallEvalG view]
   /\ w_user w' = snd (eval_g c view (w_heap w) (w_user w))).
Proof.
  intros view. subst view. cbn zeta. split; [| split].
  - unfold eval_f_cb, unraisable, store_double. unfold_adapter. cbn.
    destruct (eval_f c _ _ _) as [[v | e] u']; cbn; [| auto].
    destruct obj_value as [| a]; cbn; [auto |].
    destruct (_ !! a) as [db |]; cbn; [| auto].
    destruct (sizeof_double <=? _); cbn; auto.
  - unfold eval_grad_f_cb. unfold_adapter. cbn.
    destruct (eval_grad_f c _ _ _) as [v u']. cbn.
    match goal with |- context [memcpy ?d ?s ?k ?w1] =>
      pose proof (memcpy_frame d s k w1) as (Ht & Hu & _);
      destruct (memcpy d s k w1) as [[[] | e |] w2]
    end; cbn in *; auto.
  - unfold eval_g_cb. unfold_adapter. cbn.
    destruct (eval_g c _ _ _) as [v u']. cbn.
    match goal with |- context [memcpy ?d ?s ?k ?w1] =>
      pose proof (memcpy_frame d s k w1) as (Ht & Hu & _);
      destruct (memcpy d s k w1) as [[[] | e |] w2]
    end; cbn in *; auto.
Qed.

(** ** Construction *)

(** X9: a count [n] or [m] outside the range of a C [int] makes [__init__]
    raise [OverflowError] at once: no callback is queried, no native call is
    made, the world is as before. *)
Theorem init_count_out_of_range n m l u gl gu (f : objective_fn U)
    (g gf : vector_fn U) (jac : jacobian_fn U) (h : hessian_fn U) (w : world U N) :
  fits_c_int n = false \/ fits_c_int m = false ->
  __init__ n m l u gl gu f g gf jac h w = (Raise OverflowError, w).
Proof.
  intros Hout. rewrite init_unfold.
  destruct (fits_c_int n); cbn [negb]; [| reflexivity].
  destruct Hout as [Hn | Hm]; [discriminate |]. now rewrite Hm.
Qed.

(** X10: the two assertions of [__init__].  When the row and column arrays
    of the Jacobian structure differ in length, [AssertionError] is raised
    right after the Jacobian query: the Hessian callback is never queried.
    When those agree (in a length that fits a C [int]) and the arrays of the
    Hessian structure differ, [AssertionError] is raised after both queries.
    Neither path reaches the native library. *)
Theorem init_assertions n m l u gl gu (f : objective_fn U)
    (g gf : vector_fn U) (jac : jacobian_fn U) (h : hessian_fn U) (w : world U N) :
  let J := jac None true (w_heap w) (w_user w) in
  let Jrow : list Z := fst (fst J) in
  let Jcol : list Z := snd (fst J) in
  let heap1 := w_heap w ++ [int_bytes Jrow; int_bytes Jcol] in
  let H := h None None None true heap1 (snd J) in
  let Hrow : list Z := fst (fst H) in
  let Hcol : list Z := snd (fst H) in
  fits_c_int n = true -> fits_c_int m = true ->
  (length Jrow <> length Jcol ->
   __init__ n m l u gl gu f g gf jac h w =
   (Raise AssertionError,
    World heap1 (snd J) (w_native w) (w_trace w ++ [CallEvalJacG None true])))
  /\
  (length Jrow = length Jcol -> fits_c_int (Z.of_nat (length Jrow)) = true ->
   length Hrow <> length Hcol ->
   __init__ n m l u gl gu f g gf jac h w =
   (Raise AssertionError,
    World (heap1 ++ [int_bytes Hrow; int_bytes Hcol]) (snd H) (w_native w)
          (w_trace w ++ [CallEvalJacG None true; CallEvalH None None None true]))).
Proof.
  intros J Jrow Jcol heap1 H Hrow Hcol Hn Hm.
  pose proof (init_unfold n m l u gl gu f g gf jac h w) as E. cbn zeta in E.
  fold J Jrow Jcol heap1 H Hrow Hcol in E. rewrite E, Hn, Hm. clear E.
  cbn [negb]. split.
  - intros NJ. apply Nat.eqb_neq in NJ. now rewrite NJ.
  - intros EJ FJ NH. apply Nat.eqb_eq in EJ. apply Nat.eqb_neq in NH.
    now rewrite EJ, FJ, NH.
Qed.

(** X11: what holds of every context [__init__] returns.  Its counts are the
    arguments and fit a C [int]; [nnzj] and [nnzh] are not negative and fit a
    C [int]; its four bound arrays are the caller's and conform; its five
    functions are the caller's; and construction has changed no buffer that
    existed before. *)
Theorem init_establishes_invariant n m l u gl gu (f : objective_fn U)
    (g gf : vector_fn U) (jac : jacobian_fn U) (h : hessian_fn U)
    (w : world U N) self w' :
  __init__ n m l u gl gu f g gf jac h w = (Ok self, w') ->
  (ctx_n self = n /\ ctx_m self = m
   /\ fits_c_int (ctx_n self) = true /\ fits_c_int (ctx_m self) = true)
  /\ (0 <= ctx_nnzj self /\ fits_c_int (ctx_nnzj self) = true
      /\ 0 <= ctx_nnzh self /\ fits_c_int (ctx_nnzh self) = true)
  /\ (ctx_l self = l /\ ctx_u self = u /\ ctx_gl self = gl /\ ctx_gu self = gu
      /\ conforming l && conforming u && conforming gl && conforming gu = true)
  /\ (eval_f self = f /\ eval_g self = g /\ eval_grad_f self = gf
      /\ eval_jac_g self = jac /\ eval_h self = h)
  /\ (forall a b, w_heap w !! a = Some b -> w_heap w' !! a = Some b).
Proof.
  pose proof (init_unfold n m l u gl gu f g gf jac h w) as E. cbn zeta in E.
  set (J := jac None true (w_heap w) (w_user w)) in E.
  set (H := h None None None true _ (snd J)) in E.
  rewrite E. clear E.
  destruct (fits_c_int n) eqn:Fn; cbn [negb]; [| discriminate].
  destruct (fits_c_int m) eqn:Fm; cbn [negb]; [| discriminate].
  destruct (Nat.eqb (length (fst (fst J))) _); cbn [negb]; [| discriminate].
  destruct (fits_c_int (Z.of_nat (length (fst (fst J))))) eqn:FJ; cbn [negb];
    [| discriminate].
  destruct (Nat.eqb (length (fst (fst H))) _); cbn [negb]; [| discriminate].
  destruct (fits_c_int (Z.of_nat (length (fst (fst H))))) eqn:FH; cbn [negb];
    [| discriminate].
  match goal with |- create_problem ?s ?w2 = _ -> _ =>
    destruct (conforming (ctx_l s) && conforming (ctx_u s)
              && conforming (ctx_gl s) && conforming (ctx_gu s)) eqn:C;
    [ rewrite (create_problem_Ok s w2 C)
    | destruct (create_problem_Raise s w2 C) as [msg ->]; discriminate ]
  end.
  intros [= <- <-]. cbn in *.
  repeat split; auto; try lia.
  intros a b Ha. pose proof (lookup_lt_Some _ _ _ Ha) as Hlt.
  rewrite lookup_app_l by (rewrite length_app; lia).
  now rewrite lookup_app_l.
Qed.

(** ** Solving *)

(** X13: [solve] returns exactly when the starting point conforms and the
    counts [n] and [m] of the context are not negative; the length of the
    starting point plays no part. *)
Theorem solve_returns_iff (self : IpoptContext U) x (w : world U N) :
  (exists r w', solve self x w = (Ok r, w'))
  <-> conforming x = true /\ 0 <= ctx_n self /\ 0 <= ctx_m self.
Proof.
  split.
  - intros (r & w' & E). exact (solve_Ok_inv self x w r w' E).
  - intros (Hx & Hn & Hm). do 2 eexists. exact (solve_Ok self x w Hx Hn Hm).
Qed.

(** X14: when [solve] does not return, it raises [ValueError] (from the
    acquisition of the starting point or from [np.zeros]), the native driver
    has not been called, and nothing of the caller has changed: trace, state
    of the library, state of the caller's program and every buffer that
    existed are as before. *)
Theorem solve_failure (self : IpoptContext U) x (w : world U N) :
  conforming x = false \/ ctx_n self < 0 \/ ctx_m self < 0 ->
  exists msg w',
    solve self x w = (Raise (ValueError msg), w')
    /\ w_trace w' = w_trace w /\ w_native w' = w_native w
    /\ w_user w' = w_user w
    /\ (forall a b, w_heap w !! a = Some b -> w_heap w' !! a = Some b).
Proof.
  intros Hbad. unfold solve.
  destruct (conforming x) eqn:Hx.
  2:{ destruct (acquire_not_conforming _ w Hx) as [msg E].
      exists msg, w. rewrite (bind_Raise _ _ _ _ _ E). auto. }
  rewrite (bind_Ok _ _ _ _ _ (acquire_conforming _ w Hx)).
  destruct (Z_lt_le_dec (ctx_m self) 0) as [Hm | Hm].
  { destruct (np_zeros_negative _ w Hm) as [msg E].
    exists msg, w. rewrite (bind_Raise _ _ _ _ _ E). auto. }
  rewrite (bind_Ok _ _ _ _ _ (np_zeros_Ok _ w Hm)).
  destruct Hbad as [Hbad | [Hn | Hbad]]; [discriminate | | lia].
  match goal with |- context [bind (np_zeros _) _ ?w1] =>
    destruct (np_zeros_negative _ w1 Hn) as [msg E]; exists msg, w1
  end.
  rewrite (bind_Raise _ _ _ _ _ E). cbn. repeat split.
  intros a b Ha. rewrite lookup_app_l; [exact Ha |].
  eapply lookup_lt_Some, Ha.
Qed.

(** X12: construction followed by [solve].  When construction succeeds,
    [solve] on a conforming starting point starts the native driver on the
    handle [CreateIpoptProblem] returned, whatever that handle is (the null
    handle included: neither [__init__] nor [solve] looks at it), with the
    caller's starting point and with three new buffers; the native library
    has then been called exactly twice, to create and to solve. *)
Theorem init_then_solve n m l u gl gu (f : objective_fn U)
    (g gf : vector_fn U) (jac : jacobian_fn U) (h : hessian_fn U) x
    (w : world U N) :
  let J := jac None true (w_heap w) (w_user w) in
  let Jrow : list Z := fst (fst J) in
  let Jcol : list Z := snd (fst J) in
  let heap1 := w_heap w ++ [int_bytes Jrow; int_bytes Jcol] in
  let H := h None None None true heap1 (snd J) in
  let Hrow : list Z := fst (fst H) in
  let Hcol : list Z := snd (fst H) in
  let cargs :=
    CreateArgs n (nd_data l) (nd_data u) m (nd_data gl) (nd_data gu)
               (Z.of_nat (length Jrow)) (Z.of_nat (length Hrow)) 0 in
  let p := fst (CreateIpoptProblem cargs (w_native w)) in
  let k := (length (w_heap w) + 4)%nat in
  let sargs :=
    SolveArgs p (nd_data x) NULL NULL (Addr k) (Addr (S k)) (Addr (S (S k))) in
  conforming l && conforming u && conforming gl && conforming gu = true ->
  fits_c_int n = true -> fits_c_int m = true -> 0 <= n -> 0 <= m ->
  length Jrow = length Jcol -> fits_c_int (Z.of_nat (length Jrow)) = true ->
  length Hrow = length Hcol -> fits_c_int (Z.of_nat (length Hrow)) = true ->
  conforming x = true ->
  exists self w' r w'' status w1,
    __init__ n m l u gl gu f g gf jac h w = (Ok self, w')
    /\ solve self x w' = (Ok r, w'')
    /\ ctx_problem self = p
    /\ dict_get "status" r = Some (PyInt status)
    /\ IpoptSolve sargs self w1 = (status, w'')
    /\ w_trace w1 =
       w_trace w ++ [CallEvalJacG None true; CallEvalH None None None true;
                     NativeCreate cargs; NativeSolve sargs].
Proof.
  intros J Jrow Jcol heap1 H Hrow Hcol cargs p k sargs C Fn Fm Hn Hm EJ FJ EH FH Hx.
  pose proof (init_unfold n m l u gl gu f g gf jac h w) as E. cbn zeta in E.
  fold J Jrow Jcol heap1 H Hrow Hcol in E.
  rewrite Fn, Fm, FJ, FH in E. apply Nat.eqb_eq in EJ, EH. rewrite EJ, EH in E.
  cbn [negb] in E.
  match type of E with _ = create_problem ?s ?w2 =>
    rewrite (create_problem_Ok s w2 C) in E
  end.
  cbn [ctx_n ctx_m ctx_l ctx_u ctx_gl ctx_gu ctx_nnzj ctx_nnzh w_native
       w_heap w_user w_trace] in E.
  fold cargs p in E.
  match type of E with _ = (Ok ?self, ?w') =>
    pose proof (solve_Ok self x w' Hx Hn Hm) as S; cbn zeta in S;
    exists self, w'
  end.
  match type of S with _ = (Ok ?r, snd (IpoptSolve ?a ?self ?w1)) =>
    exists r, (snd (IpoptSolve a self w1)), (fst (IpoptSolve a self w1)), w1
  end.
  split; [exact E |]. split; [exact S |].
  cbn [w_heap w_trace ctx_problem set_problem ctx_n ctx_m].
  assert (Hk : length (heap1 ++ [int_bytes Hrow; int_bytes Hcol]) = k).
  { subst heap1 k. rewrite !length_app. cbn. lia. }
  rewrite Hk. fold sargs.
  repeat split.
  - apply surjective_pairing.
  - now rewrite <- !app_assoc.
Qed.

End Lifecycle.

(** * The further properties on the small problem *)

Section MoreRuns.

Import Demo DemoMore.

Ltac compute_it :=
  first [ reflexivity
        | vm_compute; reflexivity
        | vm_compute; discriminate
        | vm_compute; split; discriminate
        | vm_compute; congruence ].

(** X1 on the small problem: of a gradient of three entries the first two
    are copied; a gradient of one entry gives no defined result. *)
Lemma eval_grad_f_cb_copies_n_entries_witness :
  (exists w',
     eval_grad_f_cb 2 (Addr 4) true (Addr 5) ctx_grad_long w0 = (Ok true, w')
     /\ w_heap w' !! 5%nat = Some (double_bytes [one; one]))
  /\ fst (eval_grad_f_cb 2 (Addr 4) true (Addr 5) ctx_grad_short w0) = Undefined.
Proof.
  split.
  - eexists. split.
    + refine (proj1 (eval_grad_f_cb_copies_n_entries 2 (Addr 4) true (Addr 5)
                       ctx_grad_long w0 eq_refl)
                    5%nat (zeros 16) eq_refl eq_refl _ _); compute_it.
    + compute_it.
  - rewrite (proj2 (eval_grad_f_cb_copies_n_entries 2 (Addr 4) true (Addr 5)
                      ctx_grad_short w0 eq_refl)); compute_it.
Defined.

(** X2 on the small problem. *)
Lemma eval_g_cb_copies_m_entries_witness :
  (exists w',
     eval_g_cb 2 (Addr 4) true 1 (Addr 6) ctx w0 = (Ok true, w')
     /\ w_heap w' !! 6%nat = Some (double_bytes [one]))
  /\ fst (eval_g_cb 2 (Addr 4) true 1 (Addr 6) ctx_g_empty w0) = Undefined.
Proof.
  split.
  - eexists. split.
    + refine (proj1 (eval_g_cb_copies_m_entries 2 (Addr 4) true 1 (Addr 6)
                       ctx w0 eq_refl)
                    6%nat (zeros 8) eq_refl eq_refl _ _); compute_it.
    + compute_it.
  - rewrite (proj2 (eval_g_cb_copies_m_entries 2 (Addr 4) true 1 (Addr 6)
                      ctx_g_empty w0 eq_refl)); compute_it.
Defined.

(** X3 on the small problem: the two values are copied when two are
    expected, and refused when three are. *)
Lemma eval_jac_g_cb_value_query_witness :
  (exists w',
     eval_jac_g_cb 2 (Addr 4) true 1 2 NULL NULL (Addr 5) ctx w0 = (Ok true, w')
     /\ w_heap w' !! 5%nat = Some (double_bytes [one; one]))
  /\ (exists w',
        eval_jac_g_cb 2 (Addr 4) true 1 3 NULL NULL (Addr 5) ctx w0 = (Ok false, w')
        /\ w_heap w' !! 5%nat = Some (zeros 16)).
Proof.
  assert (Hmode : ~ (Addr 4 = NULL /\ NULL <> NULL /\ NULL <> NULL))
    by (intros [? _]; discriminate).
  split; eexists; split.
  - refine (proj2 (eval_jac_g_cb_value_query 2 (Addr 4) true 1 2 NULL NULL (Addr 5)
                     ctx w0 Hmode)
                  5%nat (zeros 16) eq_refl eq_refl _ _ _); compute_it.
  - compute_it.
  - refine (proj1 (eval_jac_g_cb_value_query 2 (Addr 4) true 1 3 NULL NULL (Addr 5)
                     ctx w0 Hmode) _); compute_it.
  - compute_it.
Defined.

(** X4 on the small problem. *)
Lemma eval_jac_g_cb_structure_query_witness :
  (exists w',
     eval_jac_g_cb 2 NULL true 1 2 (Addr 9) (Addr 10) NULL ctx w0 = (Ok true, w')
     /\ w_heap w' !! 9%nat = Some (int_bytes [0; 0])
     /\ w_heap w' !! 10%nat = Some (int_bytes [0; 1]))
  /\ (exists w',
        eval_jac_g_cb 2 NULL true 1 3 (Addr 9) (Addr 10) NULL ctx w0 = (Ok false, w')
        /\ w_heap w' !! 9%nat = Some (zeros 8)).
Proof.
  assert (H9 : Addr 9 <> NULL) by discriminate.
  assert (H10 : Addr 10 <> NULL) by discriminate.
  split; eexists; split.
  - refine (proj2 (eval_jac_g_cb_structure_query 2 true 1 2 (Addr 9) (Addr 10) NULL
                     ctx w0 H9 H10)
                  9%nat 10%nat (zeros 8) (zeros 8) eq_refl eq_refl _
                  eq_refl eq_refl _ _ _ _ _); compute_it.
  - split; compute_it.
  - refine (proj1 (eval_jac_g_cb_structure_query 2 true 1 3 (Addr 9) (Addr 10) NULL
                     ctx w0 H9 H10) _).
    left. compute_it.
  - compute_it.
Defined.

(** X5 on the small problem. *)
Lemma eval_h_cb_value_query_witness :
  (exists w',
     eval_h_cb 2 (Addr 4) true one 1 (Addr 6) true 1 NULL NULL (Addr 5) ctx w0
     = (Ok true, w')
     /\ w_heap w' !! 5%nat = Some (double_bytes [one] ++ zeros 8))
  /\ (exists w',
        eval_h_cb 2 (Addr 4) true one 1 (Addr 6) true 2 NULL NULL (Addr 5) ctx w0
        = (Ok false, w')
        /\ w_heap w' !! 5%nat = Some (zeros 16)).
Proof.
  assert (Hmode : ~ (Addr 4 = NULL /\ NULL <> NULL /\ NULL <> NULL))
    by (intros [? _]; discriminate).
  split; eexists; split.
  - refine (proj2 (eval_h_cb_value_query 2 (Addr 4) true one 1 (Addr 6) true 1
                     NULL NULL (Addr 5) ctx w0 Hmode)
                  5%nat (zeros 16) eq_refl eq_refl _ _ _); compute_it.
  - compute_it.
  - refine (proj1 (eval_h_cb_value_query 2 (Addr 4) true one 1 (Addr 6) true 2
                     NULL NULL (Addr 5) ctx w0 Hmode) _); compute_it.
  - compute_it.
Defined.

(** X6 on the small problem. *)
Lemma eval_h_cb_structure_query_witness :
  (exists w',
     eval_h_cb 2 NULL true one 1 NULL true 1 (Addr 9) (Addr 10) NULL ctx w0
     = (Ok true, w')
     /\ w_heap w' !! 9%nat = Some (int_bytes [0] ++ zeros 4)
     /\ w_heap w' !! 10%nat = Some (int_bytes [0] ++ zeros 4))
  /\ (exists w',
        eval_h_cb 2 NULL true one 1 NULL true 2 (Addr 9) (Addr 10) NULL ctx w0
        = (Ok false, w')
        /\ w_heap w' !! 9%nat = Some (zeros 8)).
Proof.
  assert (H9 : Addr 9 <> NULL) by discriminate.
  assert (H10 : Addr 10 <> NULL) by discriminate.
  split; eexists; split.
  - refine (proj2 (eval_h_cb_structure_query 2 true one 1 NULL true 1
                     (Addr 9) (Addr 10) NULL ctx w0 H9 H10)
                  9%nat 10%nat (zeros 8) (zeros 8) eq_refl eq_refl _
                  eq_refl eq_refl _ _ _ _ _); compute_it.
  - split; compute_it.
  - refine (proj1 (eval_h_cb_structure_query 2 true one 1 NULL true 2
                     (Addr 9) (Addr 10) NULL ctx w0 H9 H10) _).
    left. compute_it.
  - compute_it.
Defined.

(** X9 on the small problem: a variable count of [2^31]. *)
Lemma init_count_out_of_range_witness :
  __init__ (2 ^ 31) 1 l u gl gu f g grad_f jac_g hess w0 = (Raise OverflowError, w0).
Proof.
  apply init_count_out_of_range. left. compute_it.
Defined.

(** X10 on the small problem: with the ragged Jacobian the Hessian is not
    queried; with the ragged Hessian both have been. *)
Lemma init_assertions_witness :
  (exists w',
     __init__ 2 1 l u gl gu f g grad_f jac_g_ragged hess w0 = (Raise AssertionError, w')
     /\ w_trace w' = [CallEvalJacG None true])
  /\ (exists w',
        __init__ 2 1 l u gl gu f g grad_f jac_g hess_ragged w0
        = (Raise AssertionError, w')
        /\ w_trace w' = [CallEvalJacG None true; CallEvalH None None None true]).
Proof.
  split; eexists; split.
  - refine (proj1 (init_assertions 2 1 l u gl gu f g grad_f jac_g_ragged hess w0
                     eq_refl eq_refl) _); compute_it.
  - compute_it.
  - refine (proj2 (init_assertions 2 1 l u gl gu f g grad_f jac_g hess_ragged w0
                     eq_refl eq_refl) _ _ _); compute_it.
  - compute_it.
Defined.

(** X11 on the small problem. *)
Lemma init_establishes_invariant_witness :
  exists self w',
    __init__ 2 1 l u gl gu f g grad_f jac_g hess w0 = (Ok self, w')
    /\ ctx_n self = 2 /\ ctx_m self = 1
    /\ 0 <= ctx_nnzj self /\ 0 <= ctx_nnzh self
    /\ ctx_l self = l
    /\ w_heap w' !! 4%nat = Some (zeros 16).
Proof.
  destruct (__init__ 2 1 l u gl gu f g grad_f jac_g hess w0)
    as [[self | e |] w'] eqn:E; [| vm_compute in E; discriminate ..].
  destruct (init_establishes_invariant 2 1 l u gl gu f g grad_f jac_g hess w0
              self w' E)
    as ((Hn & Hm & _) & (HJ & _ & HH & _) & (Hl & _) & _ & Hheap).
  exists self, w'. repeat split; auto.
Defined.

(** X12 on the small problem, with no variable at all: the stand-in library
    refuses to create the problem and returns the null handle; construction
    succeeds all the same, and [solve] starts the driver on that handle. *)
Lemma init_then_solve_witness :
  exists self w' r w'',
    __init__ 0 1 l u gl gu f g grad_f jac_g hess w0 = (Ok self, w')
    /\ solve self x0 w' = (Ok r, w'')
    /\ ctx_problem self = NullProblem
    /\ exists status, dict_get "status" r = Some (PyInt status).
Proof.
  destruct (init_then_solve 0 1 l u gl gu f g grad_f jac_g hess x0 w0)
    as (self & w' & r & w'' & status & w1 & E1 & E2 & Hp & Hs & _);
    try compute_it.
  exists self, w', r, w''. repeat split; eauto.
Defined.

(** X14 on the small problem: a starting point that is not contiguous, and a
    context with a negative number of constraints. *)
Lemma solve_failure_witness :
  (exists msg w',
     solve ctx l_strided w0 = (Raise (ValueError msg), w') /\ w_trace w' = [])
  /\ (exists msg w',
        solve ctx_negative_m x0 w0 = (Raise (ValueError msg), w')
        /\ w_trace w' = []).
Proof.
  split.
  - destruct (solve_failure ctx l_strided w0) as (msg & w' & E & Ht & _);
      [left; compute_it |].
    exists msg, w'. auto.
  - destruct (solve_failure ctx_negative_m x0 w0) as (msg & w' & E & Ht & _);
      [right; right; compute_it |].
    exists msg, w'. auto.
Defined.

End MoreRuns.
